(** * Publish orchestration of the social-media-automation worker

    A shallow embedding of [src/jobs/postProcessor.js] (the BullMQ worker
    that publishes a post to its target platforms) and of the scheduling
    part of [src/routes/posts.js], with the properties of the publish
    pipeline stated and proved over it.

    JavaScript effects are explicit: a computation is a function of the
    world (database rows, wall clock, log of HTTP calls) that either
    returns a value or throws, and in both cases hands back the world it
    reached.  Everything outside the process (database availability, the
    replies of the remote API, the file system) is read from an
    environment [Env], so that each theorem quantifies over all behaviours
    of the outside. *)

From stdpp Require Import base numbers option list strings gmap.

Local Open Scope Z_scope.
Local Open Scope string_scope.
Local Open Scope list_scope.

(** ** Data model (Prisma models ContentPost and SocialAccount) *)

Inductive PostStatus := DRAFT | SCHEDULED | PUBLISHED | FAILED.

#[global] Instance PostStatus_eq_dec : EqDecision PostStatus.
Proof. solve_decision. Defined.

(** Timestamps are milliseconds since the epoch, as [Date.getTime()]. *)
Record SocialAccount := {
  acc_platform : string;
  accessToken : string;
  expiresAt : option Z;
  isActive : bool
}.

Record ContentPost := {
  userId : string;
  title : option string;
  content : string;
  mediaUrls : list string;
  platforms : list string;
  status : PostStatus;
  scheduledFor : option Z;
  publishedAt : option Z
}.

(** The two [data] payloads the worker passes to [contentPost.update]. *)
Definition with_outcome (p : ContentPost) (s : PostStatus) (t : option Z) : ContentPost :=
  {| userId := userId p; title := title p; content := content p;
     mediaUrls := mediaUrls p; platforms := platforms p;
     status := s; scheduledFor := scheduledFor p; publishedAt := t |}.

Definition with_status (p : ContentPost) (s : PostStatus) : ContentPost :=
  with_outcome p s (publishedAt p).

(** ** JavaScript errors and completions *)

(** An [Error] object: its [message], and [response.data.message] when the
    error is an HTTP error raised by axios. *)
Record JsError := {
  message : string;
  response_message : option string
}.

Definition new_Error (msg : string) : JsError :=
  {| message := msg; response_message := None |}.

Inductive Completion (A : Type) :=
  | Returned (a : A)
  | Threw (e : JsError).
Arguments Returned {A} a.
Arguments Threw {A} e.

(** ** HTTP requests issued through axios *)

Inductive Method := GET | POST.

Record Media := {
  media_description : string;
  media_urn : string;
  media_title : string
}.

Inductive Body :=
  | NoBody
  | RegisterUploadRequest (owner : string)
  | FileBuffer (bytes : string)
  | UgcPost (author text shareMediaCategory : string) (media : list Media).

Record Request := {
  req_method : Method;
  req_url : string;
  req_headers : list (string * string);
  req_body : Body
}.

Record UploadValue := { uploadUrl : string; asset : string }.

(** [response.data]: the fields the worker reads, each possibly absent. *)
Record ResponseData := {
  data_id : option string;
  data_value : option UploadValue
}.

Record Reply := {
  latency : N;
  result : Completion ResponseData
}.

Record Call := { call_request : Request; call_reply : Reply }.

(** ** Jobs held by the BullMQ queue 'post-scheduler' *)

Record QueuedJob := {
  qj_name : string;
  qj_postId : string;
  qj_delay : Z;
  qj_attemptsMade : nat
}.

(** ** The world and its environment *)

Record World := {
  posts : gmap string ContentPost;
  socialAccounts : gmap string (list SocialAccount);
  now : Z;
  calls : list Call;
  dbOps : nat;
  jobs : gmap string QueuedJob;
  repeatables : gset string
}.

(** [db_available n]: the [n]-th database operation of the process reaches
    the database.  [remote n r]: the reply to request [r] when it is the
    [n]-th HTTP call.  [readFileSync path]: the file's bytes, if any.
    [cuid n]: the identifier the database generates for a row created by
    its [n]-th operation.  [processMediaFiles]: the stored paths of the
    uploaded files that could be processed.  [removeRepeatable_rejects]:
    whether the installed BullMQ throws when [removeRepeatable] is called
    without repeat options. *)
Record Env := {
  db_available : nat -> bool;
  remote : nat -> Request -> Reply;
  readFileSync : string -> option string;
  cuid : nat -> string;
  processMediaFiles : list string -> list string;
  removeRepeatable_rejects : bool
}.

Definition M (A : Type) : Type := World -> Completion A * World.

Definition ret {A} (a : A) : M A := fun w => (Returned a, w).

Definition throw {A} (e : JsError) : M A := fun w => (Threw e, w).

Definition bind {A B} (c : M A) (k : A -> M B) : M B :=
  fun w =>
    match c w with
    | (Returned a, w') => k a w'
    | (Threw e, w') => (Threw e, w')
    end.

(** [try { c } catch (error) { h error }] *)
Definition try_catch {A} (c : M A) (h : JsError -> M A) : M A :=
  fun w =>
    match c w with
    | (Returned a, w') => (Returned a, w')
    | (Threw e, w') => h e w'
    end.

Notation "'do' x <- c ; k" := (bind c (fun x => k))
  (at level 10, x name, c at level 100, k at level 200).
Notation "c ;; k" := (bind c (fun _ => k))
  (at level 100, k at level 200, right associativity).

(** [new Date()] *)
Definition new_Date : M Z := fun w => (Returned (now w), w).

(** ** Persistence (Prisma client) *)

Definition tick_db (w : World) : World :=
  {| posts := posts w; socialAccounts := socialAccounts w; now := now w;
     calls := calls w; dbOps := S (dbOps w);
     jobs := jobs w; repeatables := repeatables w |}.

Definition set_posts (w : World) (ps : gmap string ContentPost) : World :=
  {| posts := ps; socialAccounts := socialAccounts w; now := now w;
     calls := calls w; dbOps := dbOps w;
     jobs := jobs w; repeatables := repeatables w |}.

Definition PrismaClientInitializationError : JsError :=
  new_Error "Can't reach database server".

Definition RecordNotFound : JsError :=
  new_Error "Record to update not found.".

(** [include: { user: { include: { socialAccounts: { where: { isActive:
    true } } } } }]: the author's accounts that are active. *)
Definition include_socialAccounts (w : World) (p : ContentPost)
  : list SocialAccount :=
  filter (fun a => isActive a = true) (default [] (socialAccounts w !! userId p)).

(** [prisma.contentPost.findUnique({ where: { id }, include: ... })] *)
Definition findUnique (env : Env) (id : string)
  : M (option (ContentPost * list SocialAccount)) :=
  fun w =>
    if db_available env (dbOps w) then
      (Returned
         (match posts w !! id with
          | Some p => Some (p, include_socialAccounts w p)
          | None => None
          end),
       tick_db w)
    else (Threw PrismaClientInitializationError, tick_db w).

(** [prisma.contentPost.update({ where: { id }, data })]: resolves to the
    updated row; throws when the database is unreachable or when no row
    has this id. *)
Definition update (env : Env) (id : string) (data : ContentPost -> ContentPost)
  : M ContentPost :=
  fun w =>
    if db_available env (dbOps w) then
      match posts w !! id with
      | Some p =>
          (Returned (data p), tick_db (set_posts w (<[id := data p]> (posts w))))
      | None => (Threw RecordNotFound, tick_db w)
      end
    else (Threw PrismaClientInitializationError, tick_db w).

(** ** axios *)

Definition record_call (w : World) (r : Request) (rep : Reply) : World :=
  {| posts := posts w; socialAccounts := socialAccounts w;
     now := now w + Z.of_N (latency rep);
     calls := calls w ++ [{| call_request := r; call_reply := rep |}];
     dbOps := dbOps w; jobs := jobs w; repeatables := repeatables w |}.

Definition axios (env : Env) (r : Request) : M ResponseData :=
  fun w =>
    let rep := remote env (length (calls w)) r in
    (result rep, record_call w r rep).

Definition axios_get (env : Env) (url : string) (headers : list (string * string))
  : M ResponseData :=
  axios env {| req_method := GET; req_url := url; req_headers := headers;
               req_body := NoBody |}.

Definition axios_post (env : Env) (url : string) (body : Body)
    (headers : list (string * string)) : M ResponseData :=
  axios env {| req_method := POST; req_url := url; req_headers := headers;
               req_body := body |}.

(** ** JavaScript string and truthiness idioms *)

(** [`${x}`] and ['...' + x] for a possibly undefined [x]. *)
Definition js_str (x : option string) : string := default "undefined" x.

(** [x || d] on a possibly undefined string: the empty string is falsy. *)
Definition js_or (x : option string) (d : string) : string :=
  match x with
  | Some s => if decide (s = "") then d else s
  | None => d
  end.

(** [error.response?.data?.message || error.message] *)
Definition failure_detail (e : JsError) : string :=
  js_or (response_message e) (message e).

(** ** LinkedIn publisher *)

Definition LINKEDIN_CONFIG_apiUrl : string := "https://api.linkedin.com/v2".

Record Published := {
  platformPostId : option string;
  url : string;
  pub_publishedAt : Z
}.

Definition TypeError : JsError :=
  new_Error "Cannot read properties of undefined (reading 'uploadMechanism')".

Definition ENOENT (path : string) : JsError :=
  new_Error ("ENOENT: no such file or directory, open '" +:+ path +:+ "'").

Definition getUserId (env : Env) (accessToken : string) : M (option string) :=
  do response <- axios_get env (LINKEDIN_CONFIG_apiUrl +:+ "/me")
                   [("Authorization", "Bearer " +:+ accessToken)];
  ret (data_id response).

Definition uploadMediaToLinkedIn (env : Env) (mediaPath accessToken : string)
  : M string :=
  try_catch
    (do uid <- getUserId env accessToken;
     do registerResponse <-
       axios_post env (LINKEDIN_CONFIG_apiUrl +:+ "/assets?action=registerUpload")
         (RegisterUploadRequest ("urn:li:person:" +:+ js_str uid))
         [("Authorization", "Bearer " +:+ accessToken);
          ("Content-Type", "application/json")];
     match data_value registerResponse with
     | None => throw TypeError
     | Some value =>
         match readFileSync env mediaPath with
         | None => throw (ENOENT mediaPath)
         | Some fileBuffer =>
             axios_post env (uploadUrl value) (FileBuffer fileBuffer)
               [("Authorization", "Bearer " +:+ accessToken);
                ("Content-Type", "application/octet-stream")];;
             ret (asset value)
         end
     end)
    (fun error => throw error).

(** [account.expiresAt && new Date() >= account.expiresAt]: a [Date] object
    is truthy whatever its value, so the guard is on presence only. *)
Definition token_expired (account : SocialAccount) (today : Z) : bool :=
  match expiresAt account with
  | Some t => bool_decide (t <= today)
  | None => false
  end.

Definition publishToLinkedIn (env : Env) (post : ContentPost)
    (account : SocialAccount) : M Published :=
  try_catch
    (do today <- new_Date;
     if token_expired account today
     then throw (new_Error "LinkedIn access token expired")
     else
       let headers :=
         [("Authorization", "Bearer " +:+ accessToken account);
          ("Content-Type", "application/json");
          ("X-Restli-Protocol-Version", "2.0.0")] in
       do profileResponse <- axios_get env (LINKEDIN_CONFIG_apiUrl +:+ "/me") headers;
       let personUrn := "urn:li:person:" +:+ js_str (data_id profileResponse) in
       do postData <-
         match mediaUrls post with
         | mediaPath :: _ =>
             do mediaUrn <- uploadMediaToLinkedIn env mediaPath (accessToken account);
             ret (UgcPost personUrn (content post) "IMAGE"
                    [{| media_description :=
                          js_or (title post) "Shared via Social Media Automation";
                        media_urn := mediaUrn;
                        media_title := js_or (title post) "Social Media Post" |}])
         | [] => ret (UgcPost personUrn (content post) "NONE" [])
         end;
       do response <- axios_post env (LINKEDIN_CONFIG_apiUrl +:+ "/ugcPosts")
                        postData headers;
       do stamp <- new_Date;
       ret {| platformPostId := data_id response;
              url := "https://linkedin.com/feed/update/" +:+ js_str (data_id response);
              pub_publishedAt := stamp |})
    (fun error =>
       throw (new_Error ("LinkedIn publishing failed: " +:+ failure_detail error))).

(** ** Placeholder publishers *)

Definition publishToInstagram (post : ContentPost) (account : SocialAccount)
  : M Published :=
  throw (new_Error "Instagram publishing not yet implemented").

Definition publishToTikTok (post : ContentPost) (account : SocialAccount)
  : M Published :=
  throw (new_Error "TikTok publishing not yet implemented").

Definition publishToFacebook (post : ContentPost) (account : SocialAccount)
  : M Published :=
  throw (new_Error "Facebook publishing not yet implemented").

(** ** The worker *)

Inductive ResultStatus := success | error.

#[global] Instance ResultStatus_eq_dec : EqDecision ResultStatus.
Proof. solve_decision. Defined.

(** One element of the worker's [results] array. *)
Record PlatformResult := {
  r_platform : string;
  r_status : ResultStatus;
  r_error : option string;
  r_published : option Published
}.

Definition success_result (platform : string) (p : Published) : PlatformResult :=
  {| r_platform := platform; r_status := success; r_error := None;
     r_published := Some p |}.

Definition error_result (platform msg : string) : PlatformResult :=
  {| r_platform := platform; r_status := error; r_error := Some msg;
     r_published := None |}.

(** [switch (platform) { ... }] *)
Definition publishTo (env : Env) (platform : string) (post : ContentPost)
    (account : SocialAccount) : M Published :=
  if decide (platform = "LINKEDIN") then publishToLinkedIn env post account
  else if decide (platform = "INSTAGRAM") then publishToInstagram post account
  else if decide (platform = "TIKTOK") then publishToTikTok post account
  else if decide (platform = "FACEBOOK") then publishToFacebook post account
  else throw (new_Error ("Platform " +:+ platform +:+ " not supported")).

(** [post.user.socialAccounts.find(acc => acc.platform === platform && acc.isActive)] *)
Definition find_account (accounts : list SocialAccount) (platform : string)
  : option SocialAccount :=
  List.find (fun acc => bool_decide (acc_platform acc = platform) && isActive acc)
    accounts.

(** The body of [for (const platform of post.platforms)]: the element it
    pushes on [results]. *)
Definition publishOne (env : Env) (post : ContentPost)
    (accounts : list SocialAccount) (platform : string) : M PlatformResult :=
  match find_account accounts platform with
  | None => ret (error_result platform "No active account")
  | Some account =>
      try_catch
        (do publishResult <- publishTo env platform post account;
         ret (success_result platform publishResult))
        (fun e => ret (error_result platform (message e)))
  end.

Fixpoint forEachPlatform (env : Env) (post : ContentPost)
    (accounts : list SocialAccount) (todo : list string)
    (results : list PlatformResult) : M (list PlatformResult) :=
  match todo with
  | [] => ret results
  | platform :: rest =>
      do r <- publishOne env post accounts platform;
      forEachPlatform env post accounts rest (results ++ [r])
  end.

Definition is_error (r : PlatformResult) : bool :=
  bool_decide (r_status r = error).

Inductive JobStatus := job_failed | job_partial_success | job_success.

Inductive JobReturn :=
  | already_published
  | completed (postId : string) (results : list PlatformResult) (status : JobStatus).

Record Job := { job_id : string; job_name : string; data_postId : string }.

(** A non-empty string is truthy. *)
Definition truthy (s : string) : bool := bool_decide (s <> "").

Definition postWorker (env : Env) (job : Job) : M JobReturn :=
  try_catch
    (let postId := data_postId job in
     do found <- findUnique env postId;
     match found with
     | None => throw (new_Error ("Post " +:+ postId +:+ " not found"))
     | Some (post, accounts) =>
         if decide (status post = PUBLISHED) then ret already_published
         else
           do results <- forEachPlatform env post accounts (platforms post) [];
           let hasErrors := existsb is_error results in
           let allFailed := forallb is_error results in
           do stamp <- new_Date;
           update env postId
             (fun p => with_outcome p (if allFailed then FAILED else PUBLISHED)
                         (if allFailed then None else Some stamp));;
           ret (completed postId results
                  (if allFailed then job_failed
                   else if hasErrors then job_partial_success else job_success))
     end)
    (fun e =>
       (if truthy (data_postId job)
        then try_catch
               (update env (data_postId job) (fun p => with_status p FAILED);;
                ret tt)
               (fun dbError => ret tt)
        else ret tt);;
       throw e).

(** ** Scheduling routes of [src/routes/posts.js]

    Only what bears on the job queue is kept: authentication has already
    put the caller in [req.user], the body's JSON and date strings are
    parsed, and the media files are taken through [processMediaFiles]. *)

Record PostBody := {
  body_title : option string;
  body_content : option string;
  body_platforms : option (list string);
  body_scheduledFor : option Z;
  body_files : list string
}.

Record Response := {
  res_code : nat;
  res_text : string;
  res_post : option (string * ContentPost)
}.

Definition json (code : nat) (text : string) (p : option (string * ContentPost))
  : Response :=
  {| res_code := code; res_text := text; res_post := p |}.

(** [prisma.contentPost.create({ data })].  The id is the one the database
    generates, [cuid]; the database never issues an id already in use,
    and nothing here checks that [env] respects this. *)
Definition create (env : Env) (data : ContentPost) : M (string * ContentPost) :=
  fun w =>
    if db_available env (dbOps w) then
      let id := cuid env (dbOps w) in
      (Returned (id, data), tick_db (set_posts w (<[id := data]> (posts w))))
    else (Threw PrismaClientInitializationError, tick_db w).

(** [prisma.contentPost.findFirst({ where: { id, userId } })] *)
Definition findFirst (env : Env) (id user : string) : M (option ContentPost) :=
  fun w =>
    if db_available env (dbOps w) then
      (Returned
         (match posts w !! id with
          | Some p => if decide (userId p = user) then Some p else None
          | None => None
          end),
       tick_db w)
    else (Threw PrismaClientInitializationError, tick_db w).

Definition set_jobs (w : World) (js : gmap string QueuedJob) : World :=
  {| posts := posts w; socialAccounts := socialAccounts w; now := now w;
     calls := calls w; dbOps := dbOps w;
     jobs := js; repeatables := repeatables w |}.

Definition set_repeatables (w : World) (rs : gset string) : World :=
  {| posts := posts w; socialAccounts := socialAccounts w; now := now w;
     calls := calls w; dbOps := dbOps w;
     jobs := jobs w; repeatables := rs |}.

(** [postQueue.add(name, { postId }, { delay, jobId })].  BullMQ's
    contract for a custom [jobId]: when a job with this id is already in
    the queue, the new one is not added and the existing job is kept as it
    is.  The queue is taken to be reachable: an [add] that rejects is not
    part of this model. *)
Definition postQueue_add (name postId : string) (delay : Z) (jobId : string)
  : M unit :=
  fun w =>
    match jobs w !! jobId with
    | Some _ => (Returned tt, w)
    | None =>
        (Returned tt,
         set_jobs w (<[jobId := {| qj_name := name; qj_postId := postId;
                                   qj_delay := delay; qj_attemptsMade := 0 |}]>
                       (jobs w)))
    end.

(** [postQueue.removeRepeatable(key)].  BullMQ's contract: it deletes a
    repeatable-job schedule (the registry of jobs added with a [repeat]
    option); delayed and waiting jobs are left as they are.  Called
    without repeat options, as the routes do, some versions throw a
    [TypeError] before doing anything. *)
Definition postQueue_removeRepeatable (env : Env) (key : string) : M unit :=
  fun w =>
    if removeRepeatable_rejects env then (Threw TypeError, w)
    else (Returned tt, set_repeatables w (repeatables w ∖ {[key]})).

(** [Date.now()] *)
Definition Date_now : M Z := new_Date.

(** [x || null] *)
Definition or_null (x : option string) : option string :=
  match x with
  | Some s => if decide (s = "") then None else Some s
  | None => None
  end.

(** [router.post('/')]: create a post and, when scheduled, its job. *)
Definition router_post (env : Env) (user : string) (body : PostBody) : M Response :=
  try_catch
    (match or_null (body_content body), body_platforms body with
     | Some content, Some platformArray =>
         let mediaUrls :=
           match body_files body with
           | [] => []
           | _ :: _ => processMediaFiles env (body_files body)
           end in
         do created <-
           create env
             {| userId := user; title := or_null (body_title body);
                content := content; mediaUrls := mediaUrls;
                platforms := platformArray;
                status := match body_scheduledFor body with
                          | Some _ => SCHEDULED
                          | None => DRAFT
                          end;
                scheduledFor := body_scheduledFor body;
                publishedAt := None |};
         (match body_scheduledFor body with
          | Some at_time =>
              do today <- Date_now;
              postQueue_add "publish-post" created.1 (at_time - today)
                ("post-" +:+ created.1)
          | None => ret tt
          end);;
         ret (json 201 "Post created successfully" (Some created))
     | _, _ => ret (json 400 "Content and platforms are required" None)
     end)
    (fun _ => ret (json 500 "Failed to create post" None)).

(** [router.put('/:postId')]: edit a post and redo its job. *)
Definition router_put (env : Env) (user postId : string) (body : PostBody)
  : M Response :=
  try_catch
    (do existing <- findFirst env postId user;
     match existing with
     | None => ret (json 404 "Post not found" None)
     | Some existingPost =>
         if decide (status existingPost = PUBLISHED)
         then ret (json 400 "Cannot edit published posts" None)
         else
           let mediaUrls :=
             match body_files body with
             | [] => mediaUrls existingPost
             | _ :: _ => processMediaFiles env (body_files body)
             end in
           let platformArray :=
             default (platforms existingPost) (body_platforms body) in
           do updatedPost <-
             update env postId (fun row =>
               {| userId := userId row;
                  title := match body_title body with
                           | Some t => Some t
                           | None => title existingPost
                           end;
                  content := default (content existingPost) (body_content body);
                  mediaUrls := mediaUrls;
                  platforms := platformArray;
                  status := match body_scheduledFor body with
                            | Some _ => SCHEDULED
                            | None =>
                                if decide (status existingPost = SCHEDULED)
                                then DRAFT else status existingPost
                            end;
                  scheduledFor := body_scheduledFor body;
                  publishedAt := publishedAt row |});
           postQueue_removeRepeatable env ("post-" +:+ postId);;
           (match body_scheduledFor body with
            | Some at_time =>
                do today <- Date_now;
                postQueue_add "publish-post" postId (at_time - today)
                  ("post-" +:+ postId)
            | None => ret tt
            end);;
           ret (json 200 "Post updated successfully" (Some (postId, updatedPost)))
     end)
    (fun _ => ret (json 500 "Failed to update post" None)).

(** Time passing between two requests. *)
Definition elapse (d : N) (w : World) : World :=
  {| posts := posts w; socialAccounts := socialAccounts w;
     now := now w + Z.of_N d;
     calls := calls w; dbOps := dbOps w;
     jobs := jobs w; repeatables := repeatables w |}.

(** ** The other routes of [src/routes/posts.js] *)

(** [prisma.contentPost.delete({ where: { id } })]: throws when the
    database is unreachable or when no row has this id. *)
Definition delete_row (env : Env) (id : string) : M ContentPost :=
  fun w =>
    if db_available env (dbOps w) then
      match posts w !! id with
      | Some p => (Returned p, tick_db (set_posts w (delete id (posts w))))
      | None => (Threw RecordNotFound, tick_db w)
      end
    else (Threw PrismaClientInitializationError, tick_db w).

(** [router.delete('/:postId')].  [cleanupMediaFiles] unlinks files and
    swallows every error; it touches nothing the world records. *)
Definition router_delete (env : Env) (user postId : string) : M Response :=
  try_catch
    (do found <- findFirst env postId user;
     match found with
     | None => ret (json 404 "Post not found" None)
     | Some post =>
         (if decide (status post = SCHEDULED)
          then postQueue_removeRepeatable env ("post-" +:+ postId)
          else ret tt);;
         delete_row env postId;;
         ret (json 200 "Post deleted successfully" None)
     end)
    (fun _ => ret (json 500 "Failed to delete post" None)).

(** [router.post('/:postId/publish')].  The job is added without a
    [jobId]: the queue files it under the next value of its own id
    counter, given here as [autoId].  Its priority only orders waiting
    jobs and is not kept in [QueuedJob]. *)
Definition router_publish (env : Env) (user postId autoId : string) : M Response :=
  try_catch
    (do found <- findFirst env postId user;
     match found with
     | None => ret (json 404 "Post not found" None)
     | Some post =>
         if decide (status post = PUBLISHED)
         then ret (json 400 "Post is already published" None)
         else
           postQueue_add "publish-post" postId 0 autoId;;
           do today <- new_Date;
           update env postId (fun row =>
             {| userId := userId row; title := title row; content := content row;
                mediaUrls := mediaUrls row; platforms := platforms row;
                status := SCHEDULED; scheduledFor := Some today;
                publishedAt := publishedAt row |});;
           ret (json 200 "Post queued for publishing" None)
     end)
    (fun _ => ret (json 500 "Failed to publish post" None)).

(** [s.split(sep)] for a one-character separator. *)
Fixpoint js_split (sep : Ascii.ascii) (s : string) : list string :=
  match s with
  | EmptyString => [EmptyString]
  | String c rest =>
      if Ascii.eqb c sep then EmptyString :: js_split sep rest
      else match js_split sep rest with
           | seg :: segs => String c seg :: segs
           | [] => [String c EmptyString]
           end
  end.

(** [authenticateToken]: the middleware in front of every route.
    [jwt_verify] stands for [jwt.verify(token, process.env.JWT_SECRET)]:
    the decoded user when the token is valid.  The result is either the
    response that ends the request or the user handed to the route. *)
Definition authenticateToken (jwt_verify : string -> option string)
    (authorization : option string) : Response + string :=
  let token :=
    match authorization with
    | Some authHeader =>
        if decide (authHeader = "") then Some ""
        else js_split Ascii.Space authHeader !! 1%nat
    | None => None
    end in
  match or_null token with
  | None => inl (json 401 "Access token required" None)
  | Some token =>
      match jwt_verify token with
      | None => inl (json 403 "Invalid or expired token" None)
      | Some user => inr user
      end
  end.

(** ** Vocabulary of the properties *)

(** A computation that returns, whatever it returns. *)
Definition returns_normally {A} (c : M A) (w : World) : Prop :=
  exists a w', c w = (Returned a, w').

(** The world after a computation, and what it completed with. *)
Definition after {A} (c : M A) (w : World) : World := (c w).2.
Definition completion {A} (c : M A) (w : World) : Completion A := (c w).1.

Definition status_of (w : World) (id : string) : option PostStatus :=
  status <$> posts w !! id.

Definition count_errors (results : list PlatformResult) : nat :=
  length (filter (fun r => is_error r = true) results).

(** The row and the job status the worker derives from [results]. *)
Definition aggregate (post : ContentPost) (results : list PlatformResult)
    (stamp : Z) : ContentPost :=
  with_outcome post
    (if forallb is_error results then FAILED else PUBLISHED)
    (if forallb is_error results then None else Some stamp).

Definition job_status (results : list PlatformResult) : JobStatus :=
  if forallb is_error results then job_failed
  else if existsb is_error results then job_partial_success else job_success.

(** The only classification a result carries is its message: a result
    reports an expired credential when its message says so. *)
Definition says_expired (r : PlatformResult) : bool :=
  is_error r &&
  match r_error r with
  | Some msg => bool_decide (is_Some (String.index 0 "expired" msg))
  | None => false
  end.

(** A call the remote API answered, as opposed to one that failed. *)
Definition answered (c : Call) : Prop :=
  exists d, result (call_reply c) = Returned d.

(** The calls a computation adds to the log. *)
Definition calls_made {A} (c : M A) (w : World) : list Call :=
  drop (length (calls w)) (calls (after c w)).

(** A computation that returns only if every call it made was answered. *)
Definition returns_only_if_answered {A} (c : M A) : Prop :=
  forall w a w',
    c w = (Returned a, w') ->
    exists new, calls w' = calls w ++ new /\ Forall answered new.

(** Network activity alone: the database, the queue and the count of
    database operations are as before, the clock has not gone back and the
    call log has only grown. *)
Record net_step (w w' : World) : Prop := {
  ns_posts : posts w' = posts w;
  ns_accounts : socialAccounts w' = socialAccounts w;
  ns_dbOps : dbOps w' = dbOps w;
  ns_jobs : jobs w' = jobs w;
  ns_repeatables : repeatables w' = repeatables w;
  ns_now : now w <= now w';
  ns_calls : calls w `prefix_of` calls w'
}.

Definition net_only {A} (c : M A) : Prop := forall w, net_step w (after c w).

(** One run of the worker's loop, iteration by iteration: from world [w],
    the platforms [todo] yield the results [rs] and leave world [w']. *)
Inductive loop_run (env : Env) (post : ContentPost) (accounts : list SocialAccount)
  : list string -> World -> list PlatformResult -> World -> Prop :=
  | loop_done w : loop_run env post accounts [] w [] w
  | loop_iter platform rest w r w1 rs w2 :
      publishOne env post accounts platform w = (Returned r, w1) ->
      loop_run env post accounts rest w1 rs w2 ->
      loop_run env post accounts (platform :: rest) w (r :: rs) w2.

(** The world the worker's error handler leaves: its attempt to mark the
    post FAILED, with every failure of that attempt swallowed. *)
Definition mark_failed (env : Env) (id : string) (w : World) : World :=
  if truthy id then
    if db_available env (dbOps w) then
      match posts w !! id with
      | Some p => tick_db (set_posts w (<[id := with_status p FAILED]> (posts w)))
      | None => tick_db w
      end
    else tick_db w
  else w.

(** The five ways a run of the worker can go. *)
Inductive worker_run (env : Env) (job : Job) (w : World)
  : Completion JobReturn -> World -> Prop :=
  | run_load_failed :
      db_available env (dbOps w) = false ->
      worker_run env job w (Threw PrismaClientInitializationError)
        (mark_failed env (data_postId job) (tick_db w))
  | run_post_missing :
      db_available env (dbOps w) = true ->
      posts w !! data_postId job = None ->
      worker_run env job w
        (Threw (new_Error ("Post " +:+ data_postId job +:+ " not found")))
        (mark_failed env (data_postId job) (tick_db w))
  | run_already_published post :
      db_available env (dbOps w) = true ->
      posts w !! data_postId job = Some post ->
      status post = PUBLISHED ->
      worker_run env job w (Returned already_published) (tick_db w)
  | run_persisted post rs w1 :
      db_available env (dbOps w) = true ->
      posts w !! data_postId job = Some post ->
      status post <> PUBLISHED ->
      loop_run env post (include_socialAccounts w post) (platforms post)
        (tick_db w) rs w1 ->
      db_available env (S (dbOps w)) = true ->
      worker_run env job w
        (Returned (completed (data_postId job) rs (job_status rs)))
        (tick_db (set_posts w1
                    (<[data_postId job := aggregate post rs (now w1)]> (posts w1))))
  | run_persist_failed post rs w1 :
      db_available env (dbOps w) = true ->
      posts w !! data_postId job = Some post ->
      status post <> PUBLISHED ->
      loop_run env post (include_socialAccounts w post) (platforms post)
        (tick_db w) rs w1 ->
      db_available env (S (dbOps w)) = false ->
      worker_run env job w (Threw PrismaClientInitializationError)
        (mark_failed env (data_postId job) (tick_db w1)).

(** The requests of the LinkedIn publisher, as it builds them. *)
Definition bearer (token : string) : string * string :=
  ("Authorization", "Bearer " +:+ token).

Definition profile_request (token : string) : Request :=
  {| req_method := GET; req_url := LINKEDIN_CONFIG_apiUrl +:+ "/me";
     req_headers := [bearer token; ("Content-Type", "application/json");
                     ("X-Restli-Protocol-Version", "2.0.0")];
     req_body := NoBody |}.

Definition userId_request (token : string) : Request :=
  {| req_method := GET; req_url := LINKEDIN_CONFIG_apiUrl +:+ "/me";
     req_headers := [bearer token]; req_body := NoBody |}.

Definition register_request (token : string) (uid : option string) : Request :=
  {| req_method := POST;
     req_url := LINKEDIN_CONFIG_apiUrl +:+ "/assets?action=registerUpload";
     req_headers := [bearer token; ("Content-Type", "application/json")];
     req_body := RegisterUploadRequest ("urn:li:person:" +:+ js_str uid) |}.

Definition upload_request (token : string) (slot : UploadValue) (bytes : string)
  : Request :=
  {| req_method := POST; req_url := uploadUrl slot;
     req_headers := [bearer token; ("Content-Type", "application/octet-stream")];
     req_body := FileBuffer bytes |}.

Definition ugcPost_request (token : string) (profile : ResponseData)
    (text category : string) (media : list Media) : Request :=
  {| req_method := POST; req_url := LINKEDIN_CONFIG_apiUrl +:+ "/ugcPosts";
     req_headers := [bearer token; ("Content-Type", "application/json");
                     ("X-Restli-Protocol-Version", "2.0.0")];
     req_body := UgcPost ("urn:li:person:" +:+ js_str (data_id profile))
                   text category media |}.

Definition is_ugcPost (c : Call) : Prop :=
  exists author text category media,
    req_body (call_request c) = UgcPost author text category media.

(** A string without a space character. *)
Fixpoint no_space (s : string) : bool :=
  match s with
  | EmptyString => true
  | String c rest => negb (Ascii.eqb c Ascii.Space) && no_space rest
  end.

(** A computation all of whose calls satisfy [P]. *)
Definition calls_satisfy {A} (P : Call -> Prop) (c : M A) : Prop :=
  forall w, exists new,
    calls (after c w) = calls w ++ new /\ Forall P new.

(** A call made with the token of the account the worker resolved for
    LinkedIn. *)
Definition authorised_by (accounts : list SocialAccount) (c : Call) : Prop :=
  exists account,
    find_account accounts "LINKEDIN" = Some account /\
    bearer (accessToken account) ∈ req_headers (call_request c).

(** ** Sample data *)

Definition ok_reply : Reply :=
  {| latency := 5;
     result := Returned
       {| data_id := Some "urn:li:share:1";
          data_value := Some {| uploadUrl := "https://upload.example/slot";
                                asset := "urn:li:digitalmediaAsset:1" |} |} |}.

Definition rate_limited : JsError :=
  {| message := "Request failed with status code 429";
     response_message := Some "Too many requests" |}.

(** Database up, remote API answering. *)
Definition online : Env :=
  {| db_available := fun _ => true;
     remote := fun _ _ => ok_reply;
     readFileSync := fun _ => Some "bytes";
     cuid := fun _ => "p2";
     processMediaFiles := fun files => files;
     removeRepeatable_rejects := false |}.

(** Database up, remote API throttling every call. *)
Definition throttled : Env :=
  {| db_available := fun _ => true;
     remote := fun _ _ => {| latency := 5; result := Threw rate_limited |};
     readFileSync := fun _ => Some "bytes";
     cuid := fun _ => "p2";
     processMediaFiles := fun files => files;
     removeRepeatable_rejects := false |}.

(** The second database operation (and only it) fails. *)
Definition db_blip : Env :=
  {| db_available := fun n => negb (n =? 1)%nat;
     remote := fun _ _ => ok_reply;
     readFileSync := fun _ => Some "bytes";
     cuid := fun _ => "p2";
     processMediaFiles := fun files => files;
     removeRepeatable_rejects := false |}.

Definition linkedin_account : SocialAccount :=
  {| acc_platform := "LINKEDIN"; accessToken := "tok-li";
     expiresAt := None; isActive := true |}.

Definition stale_linkedin_account : SocialAccount :=
  {| acc_platform := "LINKEDIN"; accessToken := "tok-li";
     expiresAt := Some 500; isActive := true |}.

Definition stale_instagram_account : SocialAccount :=
  {| acc_platform := "INSTAGRAM"; accessToken := "tok-ig";
     expiresAt := Some 500; isActive := true |}.

Definition stale_snapchat_account : SocialAccount :=
  {| acc_platform := "SNAPCHAT"; accessToken := "tok-sc";
     expiresAt := Some 500; isActive := true |}.

Definition hello (targets : list string) (s : PostStatus) : ContentPost :=
  {| userId := "u1"; title := None; content := "hello"; mediaUrls := [];
     platforms := targets; status := s; scheduledFor := Some 900;
     publishedAt := None |}.

Definition world_of (p : ContentPost) (accounts : list SocialAccount) : World :=
  {| posts := {[ "p1" := p ]};
     socialAccounts := {[ "u1" := accounts ]};
     now := 1000; calls := []; dbOps := 0;
     jobs := ∅; repeatables := ∅ |}.

Definition two_targets : ContentPost := hello ["LINKEDIN"; "INSTAGRAM"] SCHEDULED.

Definition two_targets_world : World := world_of two_targets [linkedin_account].

Definition instagram_only : ContentPost := hello ["INSTAGRAM"] SCHEDULED.

Definition instagram_only_world : World := world_of instagram_only [].

Definition failing_first : ContentPost := hello ["INSTAGRAM"; "LINKEDIN"] SCHEDULED.

Definition failing_first_world : World :=
  world_of failing_first [stale_instagram_account; linkedin_account].

Definition job_p1 : Job :=
  {| job_id := "1"; job_name := "publish-post"; data_postId := "p1" |}.

Definition job_p2 : Job :=
  {| job_id := "3"; job_name := "publish-post"; data_postId := "p2" |}.

Definition job_gone : Job :=
  {| job_id := "2"; job_name := "publish-post"; data_postId := "p9" |}.

(** A post scheduled for 5000, then edited 50 ms later to be scheduled
    for 9000. *)
Definition schedule_at (t : Z) : PostBody :=
  {| body_title := None; body_content := Some "hello";
     body_platforms := Some ["LINKEDIN"]; body_scheduledFor := Some t;
     body_files := [] |}.

Definition unschedule : PostBody :=
  {| body_title := None; body_content := None; body_platforms := None;
     body_scheduledFor := None; body_files := [] |}.

Definition rescheduled_world : World :=
  after (router_put online "u1" "p2" (schedule_at 9000))
    (elapse 50 (after (router_post online "u1" (schedule_at 5000)) two_targets_world)).

(** The first database operation (and only it) fails. *)
Definition db_down_at_load : Env :=
  {| db_available := fun n => negb (n =? 0)%nat;
     remote := fun _ _ => ok_reply;
     readFileSync := fun _ => Some "bytes";
     cuid := fun _ => "p2";
     processMediaFiles := fun files => files;
     removeRepeatable_rejects := false |}.

Definition with_pictures : ContentPost :=
  {| userId := "u1"; title := None; content := "hello";
     mediaUrls := ["uploads/media/a.jpg"; "uploads/media/b.jpg"];
     platforms := ["LINKEDIN"]; status := SCHEDULED; scheduledFor := Some 900;
     publishedAt := None |}.

Definition published_world : World :=
  world_of (hello ["LINKEDIN"] PUBLISHED) [linkedin_account].

(** * Properties *)

(** ** Network-only computations *)

#[global] Instance net_step_preorder : PreOrder net_step.
Proof.
  split.
  - intros w. split; reflexivity.
  - intros w1 w2 w3 [] []. split; try congruence.
    + lia.
    + etrans; eassumption.
Qed.

Lemma net_only_ret {A} (a : A) : net_only (ret a).
Proof. intros w. reflexivity. Qed.

Lemma net_only_throw {A} (e : JsError) : net_only (@throw A e).
Proof. intros w. reflexivity. Qed.

Lemma net_only_new_Date : net_only new_Date.
Proof. intros w. reflexivity. Qed.

Lemma net_only_bind {A B} (c : M A) (k : A -> M B) :
  net_only c -> (forall a, net_only (k a)) -> net_only (bind c k).
Proof.
  intros Hc Hk w. specialize (Hc w). unfold after, bind in *.
  destruct (c w) as [[a|e] w1]; simpl in *; [|assumption].
  etrans; [eassumption|]. apply Hk.
Qed.

Lemma net_only_try_catch {A} (c : M A) (h : JsError -> M A) :
  net_only c -> (forall e, net_only (h e)) -> net_only (try_catch c h).
Proof.
  intros Hc Hh w. specialize (Hc w). unfold after, try_catch in *.
  destruct (c w) as [[a|e] w1]; simpl in *; [assumption|].
  etrans; [eassumption|]. apply Hh.
Qed.

Lemma net_only_axios env r : net_only (axios env r).
Proof.
  intros w. unfold after, axios; simpl. split; simpl; try reflexivity.
  - lia.
  - by apply prefix_app_r.
Qed.

Ltac net_only_tac :=
  repeat first
    [ apply net_only_ret | apply net_only_throw | apply net_only_new_Date
    | apply net_only_axios
    | apply net_only_bind; [|intros ?]
    | apply net_only_try_catch; [|intros ?]
    | match goal with
      | |- net_only (match ?x with _ => _ end) => destruct x
      end ].

Lemma net_only_uploadMediaToLinkedIn env mediaPath token :
  net_only (uploadMediaToLinkedIn env mediaPath token).
Proof.
  unfold uploadMediaToLinkedIn, getUserId, axios_get, axios_post. net_only_tac.
Qed.

Lemma net_only_publishToLinkedIn env post account :
  net_only (publishToLinkedIn env post account).
Proof.
  unfold publishToLinkedIn, axios_get, axios_post.
  net_only_tac; apply net_only_uploadMediaToLinkedIn.
Qed.

Lemma net_only_publishTo env platform post account :
  net_only (publishTo env platform post account).
Proof.
  unfold publishTo, publishToInstagram, publishToTikTok, publishToFacebook.
  repeat case_decide; first [apply net_only_publishToLinkedIn | apply net_only_throw].
Qed.

(** ** The loop body never throws *)

Lemma publishOne_no_account env post accounts platform w :
  find_account accounts platform = None ->
  publishOne env post accounts platform w =
    (Returned (error_result platform "No active account"), w).
Proof. intros H. unfold publishOne. by rewrite H. Qed.

Lemma publishOne_caught env post accounts platform account w e w' :
  find_account accounts platform = Some account ->
  publishTo env platform post account w = (Threw e, w') ->
  publishOne env post accounts platform w =
    (Returned (error_result platform (message e)), w').
Proof.
  intros Hacc Hpub. unfold publishOne. rewrite Hacc.
  unfold try_catch, bind. by rewrite Hpub.
Qed.

Lemma publishOne_published env post accounts platform account w p w' :
  find_account accounts platform = Some account ->
  publishTo env platform post account w = (Returned p, w') ->
  publishOne env post accounts platform w =
    (Returned (success_result platform p), w').
Proof.
  intros Hacc Hpub. unfold publishOne. rewrite Hacc.
  unfold try_catch, bind. by rewrite Hpub.
Qed.

Lemma publishOne_returns env post accounts platform w :
  exists r w',
    publishOne env post accounts platform w = (Returned r, w') /\
    r_platform r = platform /\ net_step w w'.
Proof.
  destruct (find_account accounts platform) as [account|] eqn:Hacc.
  - pose proof (net_only_publishTo env platform post account w) as Hnet.
    unfold after in Hnet.
    destruct (publishTo env platform post account w) as [[p|e] w'] eqn:Hpub.
    + eexists _, _. split; [by eapply publishOne_published|]. done.
    + eexists _, _. split; [by eapply publishOne_caught|]. done.
  - eexists _, _. split; [by apply publishOne_no_account|]. done.
Qed.

(** ** The loop *)

Lemma loop_run_total env post accounts todo w :
  exists rs w', loop_run env post accounts todo w rs w'.
Proof.
  revert w. induction todo as [|platform rest IH]; intros w.
  - eexists _, _. constructor.
  - destruct (publishOne_returns env post accounts platform w) as (r & w1 & Hr & _).
    destruct (IH w1) as (rs & w2 & Hrs).
    eexists _, _. econstructor; eassumption.
Qed.

Lemma loop_run_sound env post accounts todo w rs w' :
  loop_run env post accounts todo w rs w' ->
  forall results,
    forEachPlatform env post accounts todo results w = (Returned (results ++ rs), w').
Proof.
  induction 1 as [w|platform rest w r w1 rs w2 Hr Hrest IH]; intros results; simpl.
  - unfold ret. by rewrite app_nil_r.
  - unfold bind. rewrite Hr, IH. by rewrite <- app_assoc.
Qed.

Lemma loop_run_platforms env post accounts todo w rs w' :
  loop_run env post accounts todo w rs w' -> r_platform <$> rs = todo.
Proof.
  induction 1 as [w|platform rest w r w1 rs w2 Hr Hrest IH]; [done|].
  destruct (publishOne_returns env post accounts platform w) as (r' & w1' & Hr' & Hp & _).
  rewrite Hr in Hr'. injection Hr' as <- <-. by rewrite fmap_cons, IH, Hp.
Qed.

Lemma loop_run_net env post accounts todo w rs w' :
  loop_run env post accounts todo w rs w' -> net_step w w'.
Proof.
  induction 1 as [w|platform rest w r w1 rs w2 Hr Hrest IH]; [reflexivity|].
  destruct (publishOne_returns env post accounts platform w) as (r' & w1' & Hr' & _ & Hn).
  rewrite Hr in Hr'. simplify_eq. by etrans.
Qed.


(** ** Counting the failures *)

Lemma count_errors_le results : (count_errors results <= length results)%nat.
Proof. apply length_filter. Qed.

Lemma allFailed_count results :
  forallb is_error results = true <-> count_errors results = length results.
Proof.
  unfold count_errors. induction results as [|r rs IH]; simpl; [done|].
  rewrite filter_cons. destruct (is_error r) eqn:Hr; simpl.
  - rewrite IH. lia.
  - pose proof (length_filter (fun r => is_error r = true) rs). split; [done|lia].
Qed.

Lemma loop_run_length env post accounts todo w rs w' :
  loop_run env post accounts todo w rs w' -> length rs = length todo.
Proof.
  intros H. apply loop_run_platforms in H. rewrite <- H. by rewrite length_fmap.
Qed.

(** ** The worker, run symbolically *)

Section Worker.
Context (env : Env) (job : Job) (w : World) (post : ContentPost).
Let postId := data_postId job.
Hypothesis Hload : db_available env (dbOps w) = true.
Hypothesis Hpost : posts w !! postId = Some post.

Lemma postWorker_already_published :
  status post = PUBLISHED ->
  postWorker env job w = (Returned already_published, tick_db w).
Proof using Hload Hpost.
  intros Hst. unfold postWorker, try_catch, bind, findUnique.
  fold postId. rewrite Hload, Hpost. by rewrite decide_True.
Qed.

Context (rs : list PlatformResult) (w1 : World).
Hypothesis Hstatus : status post <> PUBLISHED.
Hypothesis Hrun :
  loop_run env post (include_socialAccounts w post) (platforms post)
    (tick_db w) rs w1.

Lemma loop_world :
  posts w1 = posts w /\ dbOps w1 = S (dbOps w) /\ now w <= now w1.
Proof using Hrun.
  apply loop_run_net in Hrun. destruct Hrun. by split_and!.
Qed.

Lemma postWorker_persisted :
  db_available env (S (dbOps w)) = true ->
  postWorker env job w =
    (Returned (completed postId rs (job_status rs)),
     tick_db (set_posts w1 (<[postId := aggregate post rs (now w1)]> (posts w1)))).
Proof using Hload Hpost Hstatus Hrun.
  intros Hpersist. destruct loop_world as (Hp & Hd & _).
  unfold postWorker, try_catch, bind, findUnique.
  fold postId. rewrite Hload, Hpost. rewrite decide_False by done.
  rewrite (loop_run_sound _ _ _ _ _ _ _ Hrun []). simpl.
  unfold update. rewrite Hd, Hpersist, Hp, Hpost. reflexivity.
Qed.

Lemma postWorker_persist_failed :
  db_available env (S (dbOps w)) = false ->
  postWorker env job w =
    (Threw PrismaClientInitializationError,
     if truthy postId && db_available env (S (S (dbOps w)))
     then tick_db (set_posts (tick_db w1)
                     (<[postId := with_status post FAILED]> (posts w1)))
     else if truthy postId then tick_db (tick_db w1) else tick_db w1).
Proof using Hload Hpost Hstatus Hrun.
  intros Hpersist. destruct loop_world as (Hp & Hd & _).
  unfold postWorker, try_catch, bind, findUnique.
  fold postId. rewrite Hload, Hpost. rewrite decide_False by done.
  rewrite (loop_run_sound _ _ _ _ _ _ _ Hrun []). simpl.
  unfold update at 1. rewrite Hd, Hpersist.
  destruct (truthy postId); simpl; [|done].
  unfold update. simpl. rewrite Hd.
  destruct (db_available env (S (S (dbOps w)))); simpl; [|done].
  by rewrite Hp, Hpost.
Qed.
End Worker.

(** ** Aggregation of the per-platform results *)

(** C1. When the worker runs on a loaded post that is not yet published
    and has at least one target platform, and its final update reaches
    the database: with [total] the number of target platforms and [failed]
    the number of results in error, [failed = total] leaves the post's
    stored status FAILED and its stored [publishedAt] null; otherwise
    [failed < total] and the stored status is PUBLISHED and the stored
    [publishedAt] is the time of the update.  In both cases the rest of
    the row is as it was. *)
Theorem aggregate_status env job w post :
  db_available env (dbOps w) = true ->
  posts w !! data_postId job = Some post ->
  status post <> PUBLISHED ->
  platforms post <> [] ->
  db_available env (S (dbOps w)) = true ->
  exists results st w',
    postWorker env job w = (Returned (completed (data_postId job) results st), w') /\
    length results = length (platforms post) /\
    let total := length (platforms post) in
    let failed := count_errors results in
    (failed = total ->
       status_of w' (data_postId job) = Some FAILED /\
       publishedAt <$> posts w' !! data_postId job = Some None /\
       posts w' !! data_postId job = Some (with_outcome post FAILED None)) /\
    (failed <> total ->
       (failed < total)%nat /\
       status_of w' (data_postId job) = Some PUBLISHED /\
       publishedAt <$> posts w' !! data_postId job = Some (Some (now w')) /\
       posts w' !! data_postId job
         = Some (with_outcome post PUBLISHED (Some (now w')))).
Proof.
  intros Hload Hpost Hst _ Hpersist.
  destruct (loop_run_total env post (include_socialAccounts w post)
              (platforms post) (tick_db w)) as (rs & w1 & Hrun).
  pose proof (loop_run_length _ _ _ _ _ _ _ Hrun) as Hlen.
  eexists _, _, _. split; [by eapply postWorker_persisted|].
  split; [done|]. unfold status_of. simpl. rewrite lookup_insert_eq. unfold aggregate.
  rewrite <- Hlen. pose proof (count_errors_le rs) as Hle.
  destruct (forallb is_error rs) eqn:Hall.
  - apply allFailed_count in Hall. split; [done|]. intros Hne. by destruct Hne.
  - split.
    + intros Heq. apply allFailed_count in Heq. congruence.
    + intros Hne. split; [lia|done].
Qed.

Lemma aggregate_status_witness :
  exists results st w',
    postWorker online job_p1
        (world_of (hello ["LINKEDIN"; "INSTAGRAM"] SCHEDULED) [linkedin_account])
      = (Returned (completed "p1" results st), w') /\
    length results = 2%nat /\
    (count_errors results = 2%nat ->
       status_of w' "p1" = Some FAILED /\
       publishedAt <$> posts w' !! "p1" = Some None /\
       posts w' !! "p1"
         = Some (with_outcome (hello ["LINKEDIN"; "INSTAGRAM"] SCHEDULED) FAILED None)) /\
    (count_errors results <> 2%nat ->
       (count_errors results < 2)%nat /\
       status_of w' "p1" = Some PUBLISHED /\
       publishedAt <$> posts w' !! "p1" = Some (Some (now w')) /\
       posts w' !! "p1"
         = Some (with_outcome (hello ["LINKEDIN"; "INSTAGRAM"] SCHEDULED)
                   PUBLISHED (Some (now w')))).
Proof.
  apply (aggregate_status online job_p1
           (world_of (hello ["LINKEDIN"; "INSTAGRAM"] SCHEDULED) [linkedin_account])
           (hello ["LINKEDIN"; "INSTAGRAM"] SCHEDULED));
    [reflexivity | reflexivity | discriminate | discriminate | reflexivity].
Defined.

(** C10. On a loaded, not yet published post whose target list is empty,
    the worker records no result, makes no call, and (every result of an
    empty list being an error) leaves the post's stored status FAILED
    and its stored [publishedAt] null, the rest of the row as it was. *)
Theorem empty_targets_fail env job w post :
  db_available env (dbOps w) = true ->
  posts w !! data_postId job = Some post ->
  status post <> PUBLISHED ->
  platforms post = [] ->
  db_available env (S (dbOps w)) = true ->
  exists w',
    postWorker env job w = (Returned (completed (data_postId job) [] job_failed), w') /\
    count_errors [] = 0%nat /\
    calls w' = calls w /\
    status_of w' (data_postId job) = Some FAILED /\
    publishedAt <$> posts w' !! data_postId job = Some None /\
    posts w' !! data_postId job = Some (with_outcome post FAILED None).
Proof.
  intros Hload Hpost Hst Hnil Hpersist.
  assert (loop_run env post (include_socialAccounts w post) (platforms post)
            (tick_db w) [] (tick_db w)) as Hrun by (rewrite Hnil; constructor).
  eexists. split; [by eapply postWorker_persisted|].
  split; [done|]. split; [done|]. unfold status_of. simpl.
  by rewrite lookup_insert_eq.
Qed.

Lemma empty_targets_fail_witness :
  exists w',
    postWorker online job_p1 (world_of (hello [] DRAFT) [linkedin_account])
      = (Returned (completed "p1" [] job_failed), w') /\
    count_errors [] = 0%nat /\
    calls w' = [] /\
    status_of w' "p1" = Some FAILED /\
    publishedAt <$> posts w' !! "p1" = Some None /\
    posts w' !! "p1" = Some (with_outcome (hello [] DRAFT) FAILED None).
Proof.
  apply (empty_targets_fail online job_p1
           (world_of (hello [] DRAFT) [linkedin_account]) (hello [] DRAFT));
    [reflexivity | reflexivity | discriminate | reflexivity | reflexivity].
Defined.

(** ** Short-circuits *)

(** C3. When the worker loads a post whose status is already PUBLISHED it
    returns [already_published] to the queue (a normal return, so the job
    completes), having made no HTTP call and written nothing: the call
    log, every post row and the queue are as before. *)
Theorem published_post_is_skipped env job w post :
  db_available env (dbOps w) = true ->
  posts w !! data_postId job = Some post ->
  status post = PUBLISHED ->
  exists w',
    postWorker env job w = (Returned already_published, w') /\
    calls w' = calls w /\ posts w' = posts w /\ jobs w' = jobs w.
Proof.
  intros Hload Hpost Hst. exists (tick_db w).
  split; [by eapply postWorker_already_published|]. done.
Qed.

Lemma published_post_is_skipped_witness :
  exists w',
    postWorker online job_p1
        (world_of (hello ["LINKEDIN"] PUBLISHED) [linkedin_account])
      = (Returned already_published, w') /\
    calls w' = [] /\
    posts w' = {[ "p1" := hello ["LINKEDIN"] PUBLISHED ]} /\
    jobs w' = ∅.
Proof.
  apply (published_post_is_skipped online job_p1
           (world_of (hello ["LINKEDIN"] PUBLISHED) [linkedin_account])
           (hello ["LINKEDIN"] PUBLISHED));
    reflexivity.
Defined.




(** ** Platform failures stay inside the loop *)




(** The run behind the witness: LinkedIn is throttled, Instagram has no
    account, both are recorded, and the job completes as [job_failed]. *)
Example throttled_run :
  completion (postWorker throttled job_p1) two_targets_world
  = Returned
      (completed "p1"
         [error_result "LINKEDIN" "LinkedIn publishing failed: Too many requests";
          error_result "INSTAGRAM" "No active account"]
         job_failed).
Proof. reflexivity. Qed.

(** A failure does not stop the platforms after it: Instagram fails
    first, LinkedIn is still called (profile, then post) and publishes. *)
Example failure_then_success_run :
  completion (postWorker online job_p1) failing_first_world
  = Returned
      (completed "p1"
         [error_result "INSTAGRAM" "Instagram publishing not yet implemented";
          success_result "LINKEDIN"
            {| platformPostId := Some "urn:li:share:1";
               url := "https://linkedin.com/feed/update/urn:li:share:1";
               pub_publishedAt := 1010 |}]
         job_partial_success) /\
  call_request <$> calls (after (postWorker online job_p1) failing_first_world)
  = [profile_request "tok-li";
     ugcPost_request "tok-li"
       {| data_id := Some "urn:li:share:1"; data_value := None |}
       "hello" "NONE" []].
Proof. split; reflexivity. Qed.

(** A partial success: LinkedIn publishes, Instagram has no account. *)
Example partial_success_run :
  completion (postWorker online job_p1) two_targets_world
  = Returned
      (completed "p1"
         [success_result "LINKEDIN"
            {| platformPostId := Some "urn:li:share:1";
               url := "https://linkedin.com/feed/update/urn:li:share:1";
               pub_publishedAt := 1010 |};
          error_result "INSTAGRAM" "No active account"]
         job_partial_success) /\
  posts (after (postWorker online job_p1) two_targets_world) !! "p1"
  = Some (with_outcome two_targets PUBLISHED (Some 1010)).
Proof. split; reflexivity. Qed.

(** ** A job whose post is gone *)

(** C2, as the worker has it.  When the load finds no post with the job's
    id, the worker throws 'Post <id> not found', so the job is reported
    failed to the queue; it has made no HTTP call and no post row has
    changed (the handler's attempt to mark the post FAILED finds no row
    either). *)
Theorem missing_post_fails_the_job env job w :
  db_available env (dbOps w) = true ->
  posts w !! data_postId job = None ->
  exists w',
    postWorker env job w
      = (Threw (new_Error ("Post " +:+ data_postId job +:+ " not found")), w') /\
    calls w' = calls w /\ posts w' = posts w.
Proof.
  intros Hload Hpost.
  unfold postWorker, try_catch, bind, findUnique. rewrite Hload, Hpost. simpl.
  destruct (truthy (data_postId job)); simpl; [|by eexists].
  unfold update. simpl. rewrite Hpost.
  destruct (db_available env (S (dbOps w))); simpl; by eexists.
Qed.

Lemma missing_post_fails_the_job_witness :
  exists w',
    postWorker online job_gone (world_of (hello ["LINKEDIN"] SCHEDULED) [linkedin_account])
      = (Threw (new_Error "Post p9 not found"), w') /\
    calls w' = [] /\ posts w' = {[ "p1" := hello ["LINKEDIN"] SCHEDULED ]}.
Proof.
  apply (missing_post_fails_the_job online job_gone
           (world_of (hello ["LINKEDIN"] SCHEDULED) [linkedin_account]));
    reflexivity.
Defined.

(** C2 as stated fails: the post of [job_gone] does not exist, and the
    worker does not return. *)
Lemma missing_post_is_not_a_success :
  posts (world_of (hello ["LINKEDIN"] SCHEDULED) [linkedin_account])
    !! data_postId job_gone = None /\
  ~ returns_normally (postWorker online job_gone)
      (world_of (hello ["LINKEDIN"] SCHEDULED) [linkedin_account]).
Proof.
  split; [reflexivity|]. intros (r & w' & H).
  vm_compute in H. discriminate H.
Qed.

(** ** The final update failing *)

(** C5, as the worker has it.  When the final update throws, the worker
    rethrows the database error, so the job is reported failed to the
    queue; before that its handler tries to set the post's status to
    FAILED.  If that second update reaches the database the post is left
    FAILED, its other fields untouched; if it does not, every post row is
    as it was. *)
Theorem persist_failure_marks_failed env job w post :
  db_available env (dbOps w) = true ->
  posts w !! data_postId job = Some post ->
  status post <> PUBLISHED ->
  db_available env (S (dbOps w)) = false ->
  data_postId job <> "" ->
  exists w',
    postWorker env job w = (Threw PrismaClientInitializationError, w') /\
    (db_available env (S (S (dbOps w))) = true ->
       posts w' = <[data_postId job := with_status post FAILED]> (posts w)) /\
    (db_available env (S (S (dbOps w))) = false -> posts w' = posts w).
Proof.
  intros Hload Hpost Hst Hpersist Hid.
  destruct (loop_run_total env post (include_socialAccounts w post)
              (platforms post) (tick_db w)) as (rs & w1 & Hrun).
  destruct (loop_world _ _ _ _ _ Hrun) as (Hp & _ & _).
  eexists. split; [by eapply postWorker_persist_failed|].
  unfold truthy. rewrite bool_decide_eq_true_2 by done. simpl.
  destruct (db_available env (S (S (dbOps w)))); simpl;
    (split; [intros ?|intros ?]); congruence.
Qed.

Lemma persist_failure_marks_failed_witness :
  exists w',
    postWorker db_blip job_p1 instagram_only_world
      = (Threw PrismaClientInitializationError, w') /\
    (db_available db_blip 2 = true ->
       posts w' = <["p1" := with_status instagram_only FAILED]>
                    (posts instagram_only_world)) /\
    (db_available db_blip 2 = false -> posts w' = posts instagram_only_world).
Proof.
  apply (persist_failure_marks_failed db_blip job_p1 instagram_only_world
           instagram_only);
    [reflexivity | reflexivity | discriminate | reflexivity | discriminate].
Defined.

(** C5 as stated fails: the final update of this run throws, and the post,
    SCHEDULED before the job, is FAILED after it. *)
Lemma persist_failure_changes_status :
  db_available db_blip (S (dbOps instagram_only_world)) = false /\
  completion (postWorker db_blip job_p1) instagram_only_world
    = Threw PrismaClientInitializationError /\
  status_of (after (postWorker db_blip job_p1) instagram_only_world) "p1"
    <> status_of instagram_only_world "p1".
Proof.
  split; [reflexivity|]. split; [reflexivity|].
  vm_compute. discriminate.
Qed.

(** ** How publishers report failure *)

Lemma roa_ret {A} (a : A) : returns_only_if_answered (ret a).
Proof.
  intros w a' w' H. injection H as <- <-. exists []. by rewrite app_nil_r.
Qed.

Lemma roa_throw {A} (e : JsError) : returns_only_if_answered (@throw A e).
Proof. intros w a w' H. discriminate H. Qed.

Lemma roa_new_Date : returns_only_if_answered new_Date.
Proof.
  intros w a w' H. injection H as <- <-. exists []. by rewrite app_nil_r.
Qed.

Lemma roa_axios env r : returns_only_if_answered (axios env r).
Proof.
  intros w a w' H. unfold axios in H. injection H as Hres <-.
  eexists [_]. split; [reflexivity|].
  constructor; [|constructor]. by exists a.
Qed.

Lemma roa_bind {A B} (c : M A) (k : A -> M B) :
  returns_only_if_answered c ->
  (forall a, returns_only_if_answered (k a)) ->
  returns_only_if_answered (bind c k).
Proof.
  intros Hc Hk w b w' H. unfold bind in H.
  destruct (c w) as [[a|e] w1] eqn:Hcw; [|discriminate H].
  destruct (Hc _ _ _ Hcw) as (new1 & Hcalls1 & Hok1).
  destruct (Hk _ _ _ _ H) as (new2 & Hcalls2 & Hok2).
  exists (new1 ++ new2). split.
  - by rewrite Hcalls2, Hcalls1, app_assoc.
  - by apply Forall_app.
Qed.

(** [try { c } catch (error) { throw f(error) }] *)
Lemma roa_rethrow {A} (c : M A) (f : JsError -> JsError) :
  returns_only_if_answered c ->
  returns_only_if_answered (try_catch c (fun e => throw (f e))).
Proof.
  intros Hc w a w' H. unfold try_catch in H.
  destruct (c w) as [[a0|e] w1] eqn:Hcw; [|discriminate H].
  injection H as <- <-. by eapply Hc.
Qed.

Ltac roa_tac :=
  repeat first
    [ apply roa_ret | apply roa_throw | apply roa_new_Date | apply roa_axios
    | apply roa_bind; [|intros ?]
    | apply (roa_rethrow _ (fun e => e))
    | match goal with
      | |- returns_only_if_answered (match ?x with _ => _ end) => destruct x
      end ].

Lemma roa_uploadMediaToLinkedIn env mediaPath token :
  returns_only_if_answered (uploadMediaToLinkedIn env mediaPath token).
Proof.
  unfold uploadMediaToLinkedIn, getUserId, axios_get, axios_post. roa_tac.
Qed.

Lemma roa_publishToLinkedIn env post account :
  returns_only_if_answered (publishToLinkedIn env post account).
Proof.
  unfold publishToLinkedIn, axios_get, axios_post.
  apply (roa_rethrow _
           (fun e => new_Error ("LinkedIn publishing failed: " +:+ failure_detail e))).
  roa_tac; apply roa_uploadMediaToLinkedIn.
Qed.

Lemma publishToLinkedIn_throws_wrapped env post account w e w' :
  publishToLinkedIn env post account w = (Threw e, w') ->
  exists detail, e = new_Error ("LinkedIn publishing failed: " +:+ detail).
Proof.
  unfold publishToLinkedIn, try_catch. intros H.
  match type of H with
  | context [match ?body w with _ => _ end] =>
      destruct (body w) as [[p|err] w1]
  end; [discriminate H|].
  injection H as <- <-. by eexists.
Qed.

(** C7, as the publishers have it.  Publishers report failure by throwing.
    The LinkedIn publisher throws an Error 'LinkedIn publishing failed:
    <detail>' whenever one of the calls it made was answered with a
    failure, of whatever kind; the Instagram, TikTok and Facebook
    publishers throw 'not yet implemented' on every input, leaving the
    world untouched.  The worker's loop is what turns the exception into
    an error result carrying its message. *)
Theorem publishers_throw_on_failure env post account :
  (forall w c,
     c ∈ calls_made (publishToLinkedIn env post account) w ->
     ~ answered c ->
     exists detail,
       completion (publishToLinkedIn env post account) w
         = Threw (new_Error ("LinkedIn publishing failed: " +:+ detail))) /\
  (forall w,
     publishToInstagram post account w
       = (Threw (new_Error "Instagram publishing not yet implemented"), w) /\
     publishToTikTok post account w
       = (Threw (new_Error "TikTok publishing not yet implemented"), w) /\
     publishToFacebook post account w
       = (Threw (new_Error "Facebook publishing not yet implemented"), w)) /\
  (forall accounts platform w e w',
     find_account accounts platform = Some account ->
     publishTo env platform post account w = (Threw e, w') ->
     publishOne env post accounts platform w
       = (Returned (error_result platform (message e)), w')).
Proof.
  split; [|split].
  - intros w c Hc Hfail. unfold calls_made, completion, after in *.
    destruct (publishToLinkedIn env post account w) as [[p|e] w'] eqn:Hrun; simpl in *.
    + destruct (roa_publishToLinkedIn _ _ _ _ _ _ Hrun) as (new & Hcalls & Hok).
      rewrite Hcalls, drop_app_length in Hc.
      rewrite Forall_forall in Hok. destruct Hfail. by apply Hok.
    + destruct (publishToLinkedIn_throws_wrapped _ _ _ _ _ _ Hrun) as (detail & ->).
      by exists detail.
  - intros w. by split_and!.
  - intros accounts platform w e w' Hacc Hthrow. by eapply publishOne_caught.
Qed.

Lemma publishers_throw_on_failure_witness :
  {| call_request :=
       {| req_method := GET; req_url := "https://api.linkedin.com/v2/me";
          req_headers := [("Authorization", "Bearer tok-li");
                          ("Content-Type", "application/json");
                          ("X-Restli-Protocol-Version", "2.0.0")];
          req_body := NoBody |};
     call_reply := {| latency := 5; result := Threw rate_limited |} |}
    ∈ calls_made (publishToLinkedIn throttled two_targets linkedin_account)
        two_targets_world /\
  exists detail,
    completion (publishToLinkedIn throttled two_targets linkedin_account)
        two_targets_world
      = Threw (new_Error ("LinkedIn publishing failed: " +:+ detail)).
Proof.
  split; [vm_compute; left|].
  eapply (proj1 (publishers_throw_on_failure throttled two_targets linkedin_account)
            two_targets_world).
  - vm_compute. left.
  - intros [d Hd]. discriminate Hd.
Defined.

(** C7 as stated fails: the remote API answers the profile request with a
    rate-limit failure, and the LinkedIn publisher does not return. *)
Lemma linkedin_publisher_throws_when_throttled :
  result (remote throttled 0
            {| req_method := GET; req_url := "https://api.linkedin.com/v2/me";
               req_headers := [("Authorization", "Bearer tok-li");
                               ("Content-Type", "application/json");
                               ("X-Restli-Protocol-Version", "2.0.0")];
               req_body := NoBody |})
    = Threw rate_limited /\
  ~ returns_normally (publishToLinkedIn throttled two_targets linkedin_account)
      two_targets_world.
Proof.
  split; [reflexivity|]. intros (p & w' & H). vm_compute in H. discriminate H.
Qed.

(** ** Expired credentials *)

Lemma publishToLinkedIn_expired env post account w t :
  expiresAt account = Some t ->
  t <= now w ->
  publishToLinkedIn env post account w
    = (Threw (new_Error "LinkedIn publishing failed: LinkedIn access token expired"), w).
Proof.
  intros Hexp Hle. unfold publishToLinkedIn, try_catch, bind, new_Date.
  unfold token_expired. rewrite Hexp. by rewrite bool_decide_eq_true_2.
Qed.

Lemma publishTo_placeholder env platform post account w :
  platform <> "LINKEDIN" ->
  exists msg, publishTo env platform post account w = (Threw (new_Error msg), w).
Proof.
  intros Hne. unfold publishTo. rewrite decide_False by done.
  repeat case_decide; by eexists.
Qed.

(** C8, as the worker has it.  The expiry check belongs to the LinkedIn
    publisher.  For the target LINKEDIN, resolved to an account whose
    [expiresAt] is set and at or before the current time, the iteration
    records the error 'LinkedIn publishing failed: LinkedIn access token
    expired' and leaves the world, hence the call log, untouched.  For
    any other target with a resolved account the iteration makes no call
    either and records the publisher's own error, whatever the expiry:
    'Instagram publishing not yet implemented', 'TikTok publishing not
    yet implemented', 'Facebook publishing not yet implemented', or
    'Platform <name> not supported' for any other name; the three
    not-implemented results do not report an expired credential. *)
Theorem expired_linkedin_token_short_circuit env post accounts account w :
  (forall t,
     find_account accounts "LINKEDIN" = Some account ->
     expiresAt account = Some t ->
     t <= now w ->
     publishOne env post accounts "LINKEDIN" w
       = (Returned
            (error_result "LINKEDIN"
               "LinkedIn publishing failed: LinkedIn access token expired"), w) /\
     says_expired
       (error_result "LINKEDIN"
          "LinkedIn publishing failed: LinkedIn access token expired") = true) /\
  (find_account accounts "INSTAGRAM" = Some account ->
   publishOne env post accounts "INSTAGRAM" w
     = (Returned
          (error_result "INSTAGRAM" "Instagram publishing not yet implemented"), w)) /\
  (find_account accounts "TIKTOK" = Some account ->
   publishOne env post accounts "TIKTOK" w
     = (Returned (error_result "TIKTOK" "TikTok publishing not yet implemented"), w)) /\
  (find_account accounts "FACEBOOK" = Some account ->
   publishOne env post accounts "FACEBOOK" w
     = (Returned
          (error_result "FACEBOOK" "Facebook publishing not yet implemented"), w)) /\
  (forall platform,
     platform ∉ ["LINKEDIN"; "INSTAGRAM"; "TIKTOK"; "FACEBOOK"] ->
     find_account accounts platform = Some account ->
     publishOne env post accounts platform w
       = (Returned
            (error_result platform ("Platform " +:+ platform +:+ " not supported")),
          w)) /\
  says_expired
    (error_result "INSTAGRAM" "Instagram publishing not yet implemented") = false /\
  says_expired (error_result "TIKTOK" "TikTok publishing not yet implemented") = false /\
  says_expired
    (error_result "FACEBOOK" "Facebook publishing not yet implemented") = false.
Proof.
  split_and!; try reflexivity.
  - intros t Hacc Hexp Hle. split; [|reflexivity].
    eapply (publishOne_caught _ _ _ _ _ _ (new_Error _)); [done|].
    unfold publishTo. rewrite decide_True by done.
    by eapply publishToLinkedIn_expired.
  - intros Hacc. by eapply (publishOne_caught _ _ _ _ _ _ (new_Error _)).
  - intros Hacc. by eapply (publishOne_caught _ _ _ _ _ _ (new_Error _)).
  - intros Hacc. by eapply (publishOne_caught _ _ _ _ _ _ (new_Error _)).
  - intros platform Hout Hacc.
    eapply (publishOne_caught _ _ _ _ _ _ (new_Error _)); [done|].
    unfold publishTo.
    repeat (rewrite decide_False;
            [|intros ->; apply Hout; repeat first [apply list_elem_of_here
                                                  |apply list_elem_of_further]]).
    reflexivity.
Qed.

Lemma expired_linkedin_token_short_circuit_witness :
  publishOne online two_targets [stale_linkedin_account] "LINKEDIN" two_targets_world
    = (Returned
         (error_result "LINKEDIN"
            "LinkedIn publishing failed: LinkedIn access token expired"),
       two_targets_world) /\
  publishOne online two_targets [stale_instagram_account] "INSTAGRAM" two_targets_world
    = (Returned
         (error_result "INSTAGRAM" "Instagram publishing not yet implemented"),
       two_targets_world) /\
  publishOne online two_targets [stale_snapchat_account] "SNAPCHAT" two_targets_world
    = (Returned (error_result "SNAPCHAT" "Platform SNAPCHAT not supported"),
       two_targets_world).
Proof.
  split_and!.
  - apply (proj1 (expired_linkedin_token_short_circuit online two_targets
                    [stale_linkedin_account] stale_linkedin_account two_targets_world)
             500); [reflexivity | reflexivity | vm_compute; discriminate].
  - apply (proj1 (proj2 (expired_linkedin_token_short_circuit online two_targets
                    [stale_instagram_account] stale_instagram_account
                    two_targets_world))).
    reflexivity.
  - apply (proj1 (proj2 (proj2 (proj2 (proj2
             (expired_linkedin_token_short_circuit online two_targets
                [stale_snapchat_account] stale_snapchat_account
                two_targets_world))))) "SNAPCHAT"); [|reflexivity].
    intros Hin. repeat (apply elem_of_cons in Hin as [Hin|Hin]; [discriminate Hin|]).
    by apply not_elem_of_nil in Hin.
Defined.

(** C8 as stated fails: Instagram is resolved to an account whose token
    expired before the current time, and the error recorded for it does
    not report an expired credential. *)
Lemma expired_instagram_token_not_reported :
  find_account [stale_instagram_account] "INSTAGRAM" = Some stale_instagram_account /\
  token_expired stale_instagram_account (now instagram_only_world) = true /\
  ~ exists r w',
      publishOne online instagram_only [stale_instagram_account] "INSTAGRAM"
          instagram_only_world = (Returned r, w') /\
      says_expired r = true.
Proof.
  split; [reflexivity|]. split; [reflexivity|].
  intros (r & w' & Hrun & Hsays).
  vm_compute in Hrun. injection Hrun as <- <-. vm_compute in Hsays. discriminate Hsays.
Qed.

(** ** Rescheduling a post *)

Lemma postQueue_add_pending name postId delay jobId w :
  is_Some (jobs w !! jobId) ->
  postQueue_add name postId delay jobId w = (Returned tt, w).
Proof. intros [j Hj]. unfold postQueue_add. by rewrite Hj. Qed.

(** Whatever the edit request does, a job already queued under the post's
    key is still there afterwards, unchanged. *)
Lemma router_put_keeps_pending_job env user postId body w j :
  jobs w !! ("post-" +:+ postId) = Some j ->
  jobs (after (router_put env user postId body) w) !! ("post-" +:+ postId) = Some j.
Proof.
  intros Hj. unfold after, router_put, try_catch, bind, findFirst.
  destruct (db_available env (dbOps w)); simpl; [|done].
  destruct (posts w !! postId) as [p|] eqn:Hp; simpl; [|done].
  case_decide; simpl; [|done].
  case_decide; simpl; [done|].
  unfold update. simpl.
  destruct (db_available env (S (dbOps w))); simpl; [|done].
  rewrite Hp. simpl. unfold postQueue_removeRepeatable.
  destruct (removeRepeatable_rejects env); simpl; [done|].
  destruct (body_scheduledFor body) as [t|]; simpl; [|done].
  unfold Date_now, new_Date. simpl.
  rewrite postQueue_add_pending by (simpl; by eexists). done.
Qed.

(** C9 on the code.  A post is created with a schedule [t1], then edited
    with a schedule [t2].  Creation queues a job under the key
    'post-<id>' with the delay up to [t1].  The edit calls
    [removeRepeatable], which removes no queued job, and then [add] with
    the same [jobId], which the queue ignores: the job pending under the
    key afterwards is still the first one, with the delay computed from
    [t1] at creation time. *)
Theorem reschedule_keeps_first_job env user b1 b2 w d text targets t1 :
  or_null (body_content b1) = Some text ->
  body_platforms b1 = Some targets ->
  body_scheduledFor b1 = Some t1 ->
  db_available env (dbOps w) = true ->
  jobs w !! ("post-" +:+ cuid env (dbOps w)) = None ->
  jobs (after (router_put env user (cuid env (dbOps w)) b2)
          (elapse d (after (router_post env user b1) w)))
    !! ("post-" +:+ cuid env (dbOps w))
  = Some {| qj_name := "publish-post"; qj_postId := cuid env (dbOps w);
            qj_delay := t1 - now w; qj_attemptsMade := 0 |}.
Proof.
  intros Hcontent Htargets Ht1 Hdb Hfresh.
  apply router_put_keeps_pending_job.
  unfold after, router_post, try_catch, bind, create.
  rewrite Hcontent, Htargets, Ht1, Hdb. simpl.
  unfold postQueue_add. simpl. rewrite Hfresh. simpl.
  by rewrite lookup_insert_eq.
Qed.

Lemma reschedule_keeps_first_job_witness :
  jobs rescheduled_world !! "post-p2"
  = Some {| qj_name := "publish-post"; qj_postId := "p2";
            qj_delay := 4000; qj_attemptsMade := 0 |}.
Proof.
  apply (reschedule_keeps_first_job online "u1" (schedule_at 5000) (schedule_at 9000)
           two_targets_world 50 "hello" ["LINKEDIN"] 5000);
    reflexivity.
Defined.

(** The same run, seen from outside: the edit is answered 200, the post
    row carries the new schedule 9000, and the one pending job still has
    the delay 4000 of the schedule 5000, not the 7950 that 9000 asks for
    at the time of the edit. *)
Example reschedule_failing_input :
  match completion (router_put online "u1" "p2" (schedule_at 9000))
          (elapse 50 (after (router_post online "u1" (schedule_at 5000))
                        two_targets_world)) with
  | Returned response => res_code response = 200%nat
  | Threw _ => False
  end /\
  scheduledFor <$> posts rescheduled_world !! "p2" = Some (Some 9000) /\
  now (elapse 50 two_targets_world) = 1050 /\
  qj_delay <$> jobs rescheduled_world !! "post-p2" = Some 4000 /\
  size (jobs rescheduled_world) = 1%nat.
Proof. split_and!; reflexivity. Qed.

(** * Further properties of the worker *)

(** ** Every run is one of five *)

Lemma handler_run env id e w :
  ((if truthy id
    then try_catch (update env id (fun p => with_status p FAILED);; ret tt)
           (fun dbError => ret tt)
    else ret tt);; @throw JobReturn e) w
  = (Threw e, mark_failed env id w).
Proof.
  unfold mark_failed, bind, try_catch, update, ret, throw.
  destruct (truthy id); [|done].
  destruct (db_available env (dbOps w)); [|done].
  by destruct (posts w !! id).
Qed.

Lemma postWorker_load_failed env job w :
  db_available env (dbOps w) = false ->
  postWorker env job w
    = (Threw PrismaClientInitializationError,
       mark_failed env (data_postId job) (tick_db w)).
Proof.
  intros Hload. unfold postWorker, try_catch at 1, bind at 1, findUnique.
  rewrite Hload. by rewrite handler_run.
Qed.

Lemma postWorker_post_missing env job w :
  db_available env (dbOps w) = true ->
  posts w !! data_postId job = None ->
  postWorker env job w
    = (Threw (new_Error ("Post " +:+ data_postId job +:+ " not found")),
       mark_failed env (data_postId job) (tick_db w)).
Proof.
  intros Hload Hpost. unfold postWorker, try_catch at 1, bind at 1, findUnique.
  rewrite Hload, Hpost. unfold throw at 1. by rewrite handler_run.
Qed.

Lemma postWorker_persist_failed_handler env job w post rs w1 :
  db_available env (dbOps w) = true ->
  posts w !! data_postId job = Some post ->
  status post <> PUBLISHED ->
  loop_run env post (include_socialAccounts w post) (platforms post)
    (tick_db w) rs w1 ->
  db_available env (S (dbOps w)) = false ->
  postWorker env job w
    = (Threw PrismaClientInitializationError,
       mark_failed env (data_postId job) (tick_db w1)).
Proof.
  intros Hload Hpost Hst Hrun Hpersist.
  rewrite (postWorker_persist_failed env job w post Hload Hpost rs w1 Hst Hrun Hpersist).
  destruct (loop_world _ _ _ _ _ Hrun) as (Hp & Hd & _).
  f_equal. unfold mark_failed. simpl. rewrite Hd, Hp, Hpost.
  destruct (truthy (data_postId job)); simpl; [|done].
  by destruct (db_available env (S (S (dbOps w)))).
Qed.

Lemma postWorker_run env job w :
  worker_run env job w (completion (postWorker env job) w)
    (after (postWorker env job) w).
Proof.
  unfold completion, after.
  destruct (db_available env (dbOps w)) eqn:Hload.
  - destruct (posts w !! data_postId job) as [post|] eqn:Hpost.
    + destruct (decide (status post = PUBLISHED)) as [Hst|Hst].
      * rewrite (postWorker_already_published env job w post Hload Hpost Hst).
        by eapply run_already_published.
      * destruct (loop_run_total env post (include_socialAccounts w post)
                    (platforms post) (tick_db w)) as (rs & w1 & Hrun).
        destruct (db_available env (S (dbOps w))) eqn:Hpersist.
        -- rewrite (postWorker_persisted env job w post Hload Hpost rs w1 Hst Hrun Hpersist).
           by eapply run_persisted.
        -- rewrite (postWorker_persist_failed_handler env job w post rs w1
                      Hload Hpost Hst Hrun Hpersist).
           by eapply run_persist_failed.
    + rewrite (postWorker_post_missing env job w Hload Hpost).
      by apply run_post_missing.
  - rewrite (postWorker_load_failed env job w Hload). by apply run_load_failed.
Qed.

(** ** What a run may write *)

Lemma mark_failed_frame env id w :
  (forall id', id' <> id -> posts (mark_failed env id w) !! id' = posts w !! id') /\
  socialAccounts (mark_failed env id w) = socialAccounts w /\
  jobs (mark_failed env id w) = jobs w /\
  repeatables (mark_failed env id w) = repeatables w /\
  calls (mark_failed env id w) = calls w /\
  (posts (mark_failed env id w) !! id = posts w !! id \/
   exists p, posts w !! id = Some p /\
             posts (mark_failed env id w) !! id = Some (with_status p FAILED)).
Proof.
  unfold mark_failed.
  destruct (truthy id); [|by split_and!; auto].
  destruct (db_available env (dbOps w)); [|by split_and!; auto].
  destruct (posts w !! id) as [p|] eqn:Hp; simpl; [|rewrite Hp; by split_and!; auto].
  split_and!; try done.
  - intros id' Hne. by rewrite lookup_insert_ne.
  - right. exists p. by rewrite lookup_insert_eq.
Qed.

(** X1. The worker writes nothing but the row of its own post: in every run,
    whatever fails, the other post rows, the accounts and the queue are
    as before. *)
Theorem worker_leaves_the_rest env job w :
  (forall id, id <> data_postId job ->
     posts (after (postWorker env job) w) !! id = posts w !! id) /\
  socialAccounts (after (postWorker env job) w) = socialAccounts w /\
  jobs (after (postWorker env job) w) = jobs w /\
  repeatables (after (postWorker env job) w) = repeatables w.
Proof.
  generalize (postWorker_run env job w).
  generalize (completion (postWorker env job) w) (after (postWorker env job) w).
  intros c w' Hrun.
  destruct Hrun as [Hload|Hload Hpost|post Hload Hpost Hst
                    |post rs w1 Hload Hpost Hst Hloop Hpersist
                    |post rs w1 Hload Hpost Hst Hloop Hpersist].
  - destruct (mark_failed_frame env (data_postId job) (tick_db w))
      as (H1 & H2 & H3 & H4 & _). by split_and!.
  - destruct (mark_failed_frame env (data_postId job) (tick_db w))
      as (H1 & H2 & H3 & H4 & _). by split_and!.
  - by split_and!.
  - apply loop_run_net in Hloop. destruct Hloop. simpl. split_and!; try done.
    intros id Hne. rewrite lookup_insert_ne by done. by rewrite ns_posts0.
  - apply loop_run_net in Hloop. destruct Hloop.
    destruct (mark_failed_frame env (data_postId job) (tick_db w1))
      as (H1 & H2 & H3 & H4 & _).
    split_and!; simpl in *; try congruence.
    intros id Hne. rewrite H1 by done. by rewrite ns_posts0.
Qed.

(** X2. In every run the worker's own row is neither created nor deleted, and
    only its [status] and [publishedAt] can change. *)
Theorem worker_writes_status_only env job w :
  match posts w !! data_postId job with
  | Some p =>
      exists s t,
        posts (after (postWorker env job) w) !! data_postId job
          = Some (with_outcome p s t)
  | None => posts (after (postWorker env job) w) !! data_postId job = None
  end.
Proof.
  assert (forall p : ContentPost, p = with_outcome p (status p) (publishedAt p))
    as Hsame by (by intros []).
  assert (forall w0,
            posts w0 = posts w ->
            match posts w !! data_postId job with
            | Some p =>
                exists s t,
                  posts (mark_failed env (data_postId job) w0) !! data_postId job
                    = Some (with_outcome p s t)
            | None =>
                posts (mark_failed env (data_postId job) w0) !! data_postId job = None
            end) as Hmark.
  { intros w0 Hw0.
    destruct (mark_failed_frame env (data_postId job) w0)
      as (_ & _ & _ & _ & _ & [Heq|(p & Hp & Heq)]); rewrite Heq.
    - rewrite Hw0. destruct (posts w !! data_postId job) as [p|]; [|done].
      exists (status p), (publishedAt p). by rewrite <- Hsame.
    - rewrite Hw0 in Hp. rewrite Hp. by eexists _, _. }
  generalize (postWorker_run env job w).
  generalize (completion (postWorker env job) w) (after (postWorker env job) w).
  intros c w' Hrun.
  destruct Hrun as [Hload|Hload Hpost|post Hload Hpost Hst
                    |post rs w1 Hload Hpost Hst Hloop Hpersist
                    |post rs w1 Hload Hpost Hst Hloop Hpersist].
  - by apply Hmark.
  - by apply Hmark.
  - simpl. rewrite Hpost. exists (status post), (publishedAt post). by rewrite <- Hsame.
  - rewrite Hpost. simpl. rewrite lookup_insert_eq. by eexists _, _.
  - apply Hmark. simpl. apply loop_run_net in Hloop. by destruct Hloop.
Qed.

(** X3. When the load itself cannot reach the database, the worker knows
    nothing about the post, makes no call, and its handler still marks
    the post FAILED if the database is back for that update: this
    overwrites the status of a post that was already PUBLISHED. *)
Theorem load_failure_marks_failed env job w post :
  db_available env (dbOps w) = false ->
  db_available env (S (dbOps w)) = true ->
  data_postId job <> "" ->
  posts w !! data_postId job = Some post ->
  exists w',
    postWorker env job w = (Threw PrismaClientInitializationError, w') /\
    calls w' = calls w /\
    status_of w' (data_postId job) = Some FAILED /\
    posts w' = <[data_postId job := with_status post FAILED]> (posts w).
Proof.
  intros Hload Hnext Hid Hpost. eexists. split; [by apply postWorker_load_failed|].
  unfold mark_failed, truthy, status_of. rewrite bool_decide_eq_true_2 by done. simpl.
  rewrite Hnext, Hpost. simpl. by rewrite lookup_insert_eq.
Qed.

Lemma load_failure_marks_failed_witness :
  exists w',
    postWorker db_down_at_load job_p1 published_world
      = (Threw PrismaClientInitializationError, w') /\
    calls w' = [] /\
    status_of w' "p1" = Some FAILED /\
    posts w' = <["p1" := with_status (hello ["LINKEDIN"] PUBLISHED) FAILED]>
                 (posts published_world).
Proof.
  apply (load_failure_marks_failed db_down_at_load job_p1 published_world
           (hello ["LINKEDIN"] PUBLISHED));
    [reflexivity | reflexivity | discriminate | reflexivity].
Defined.

(** ** What the returned job status means *)

Lemma hasErrors_count results :
  existsb is_error results = true <-> (0 < count_errors results)%nat.
Proof.
  unfold count_errors. induction results as [|r rs IH]; simpl; [lia|].
  rewrite filter_cons. destruct (is_error r); simpl; [lia|]. exact IH.
Qed.

Lemma postWorker_completed_inv env job w id rs st w' :
  postWorker env job w = (Returned (completed id rs st), w') ->
  exists post w1,
    id = data_postId job /\ st = job_status rs /\
    posts w !! data_postId job = Some post /\
    status post <> PUBLISHED /\
    loop_run env post (include_socialAccounts w post) (platforms post)
      (tick_db w) rs w1 /\
    w' = tick_db (set_posts w1
                    (<[data_postId job := aggregate post rs (now w1)]> (posts w1))).
Proof.
  intros Heq. pose proof (postWorker_run env job w) as Hrun.
  unfold completion, after in Hrun. rewrite Heq in Hrun. simpl in Hrun.
  inversion Hrun; subst. by eexists _, _.
Qed.

(** X4. Whenever the worker returns [completed], the job status it reports
    counts the failures among one result per target platform: [failed]
    when all failed (also when there was no target), [success] when a
    non-empty list has no failure, [partial_success] in between. *)
Theorem job_status_counts_failures env job w id rs st w' :
  postWorker env job w = (Returned (completed id rs st), w') ->
  id = data_postId job /\
  (exists post, posts w !! id = Some post /\ r_platform <$> rs = platforms post) /\
  (st = job_failed <-> count_errors rs = length rs) /\
  (st = job_success <-> count_errors rs = 0%nat /\ rs <> []) /\
  (st = job_partial_success <-> (0 < count_errors rs < length rs)%nat).
Proof.
  intros Heq.
  destruct (postWorker_completed_inv _ _ _ _ _ _ _ Heq)
    as (post & w1 & -> & -> & Hpost & _ & Hloop & _).
  split; [done|]. split; [exists post; split; [done|by eapply loop_run_platforms]|].
  pose proof (allFailed_count rs) as Hall. pose proof (hasErrors_count rs) as Hsome.
  pose proof (count_errors_le rs) as Hle.
  unfold job_status.
  destruct (forallb is_error rs) eqn:Hf; [|destruct (existsb is_error rs) eqn:He].
  - assert (count_errors rs = length rs) as Hc by (by apply Hall).
    assert (count_errors rs = 0%nat -> rs = []) as Hnil.
    { intros H0. destruct rs; [done|]. simpl in Hc. lia. }
    split_and!; split; try discriminate; try done; try lia.
    intros [H0 Hne]. destruct Hne. by apply Hnil.
  - assert (0 < count_errors rs)%nat as Hc by (by apply Hsome).
    assert (count_errors rs <> length rs) as Hne by (intros ?; by apply Hall in H).
    split_and!; split; try discriminate; try done; lia.
  - assert (~ (0 < count_errors rs)%nat) as Hc by (intros H; by apply Hsome in H).
    assert (count_errors rs <> length rs) as Hne by (intros ?; by apply Hall in H).
    split_and!; split; try discriminate; try done; try lia.
    intros _. split; [lia|]. intros ->. by apply Hne.
Qed.

Lemma job_status_counts_failures_witness :
  "p1" = data_postId job_p1 /\
  (exists post,
     posts two_targets_world !! "p1" = Some post /\
     r_platform <$>
       [error_result "LINKEDIN" "LinkedIn publishing failed: Too many requests";
        error_result "INSTAGRAM" "No active account"] = platforms post) /\
  (job_failed = job_failed <->
     count_errors
       [error_result "LINKEDIN" "LinkedIn publishing failed: Too many requests";
        error_result "INSTAGRAM" "No active account"] = 2%nat) /\
  (job_failed = job_success <->
     count_errors
       [error_result "LINKEDIN" "LinkedIn publishing failed: Too many requests";
        error_result "INSTAGRAM" "No active account"] = 0%nat /\
     [error_result "LINKEDIN" "LinkedIn publishing failed: Too many requests";
      error_result "INSTAGRAM" "No active account"] <> []) /\
  (job_failed = job_partial_success <->
     (0 < count_errors
            [error_result "LINKEDIN" "LinkedIn publishing failed: Too many requests";
             error_result "INSTAGRAM" "No active account"] < 2)%nat).
Proof.
  apply (job_status_counts_failures throttled job_p1 two_targets_world "p1"
           [error_result "LINKEDIN" "LinkedIn publishing failed: Too many requests";
            error_result "INSTAGRAM" "No active account"]
           job_failed (after (postWorker throttled job_p1) two_targets_world)).
  reflexivity.
Defined.

(** ** The calls of the LinkedIn publisher *)

Lemma calls_made_eq {A} (c : M A) w a w' new :
  c w = (a, w') -> calls w' = calls w ++ new -> calls_made c w = new.
Proof.
  intros Hc Hcalls. unfold calls_made, after. rewrite Hc. simpl.
  by rewrite Hcalls, drop_app_length.
Qed.

Lemma bind_returned {A B} (c : M A) (k : A -> M B) w b w' :
  bind c k w = (Returned b, w') ->
  exists a w1, c w = (Returned a, w1) /\ k a w1 = (Returned b, w').
Proof.
  unfold bind. destruct (c w) as [[a|e] w1]; [|discriminate].
  intros H. by exists a, w1.
Qed.

Lemma try_catch_returned {A} (c : M A) (h : JsError -> M A) w a w' :
  try_catch c h w = (Returned a, w') ->
  c w = (Returned a, w') \/
  exists e w1, c w = (Threw e, w1) /\ h e w1 = (Returned a, w').
Proof.
  unfold try_catch. destruct (c w) as [[a0|e] w1]; intros H.
  - by left.
  - right. by exists e, w1.
Qed.

Lemma axios_returned env r w d w1 :
  axios env r w = (Returned d, w1) ->
  result (remote env (length (calls w)) r) = Returned d /\
  now w <= now w1 /\
  calls w1 = calls w ++ [{| call_request := r;
                            call_reply := remote env (length (calls w)) r |}].
Proof.
  unfold axios. intros H. injection H as Hres <-. simpl. split_and!; [done|lia|done].
Qed.

(** X5. A post without media that the LinkedIn publisher reports published
    took exactly two calls: the profile request, answered with some
    [profile], then the post request, text-only and authored by that
    very [profile]'s id, answered with some [created].  The log holds
    these two requests with the replies the remote API gave them, and
    the result carries the id of [created], the feed URL built from it,
    and the time at the end of the calls. *)
Theorem linkedin_text_post env post account w p w' :
  mediaUrls post = [] ->
  publishToLinkedIn env post account w = (Returned p, w') ->
  exists profile created,
    result (remote env (length (calls w)) (profile_request (accessToken account)))
      = Returned profile /\
    result (remote env (length (calls w) + 1)
              (ugcPost_request (accessToken account) profile (content post) "NONE" []))
      = Returned created /\
    calls_made (publishToLinkedIn env post account) w
      = [{| call_request := profile_request (accessToken account);
            call_reply :=
              remote env (length (calls w)) (profile_request (accessToken account)) |};
         {| call_request :=
              ugcPost_request (accessToken account) profile (content post) "NONE" [];
            call_reply :=
              remote env (length (calls w) + 1)
                (ugcPost_request (accessToken account) profile (content post)
                   "NONE" []) |}] /\
    p = {| platformPostId := data_id created;
           url := "https://linkedin.com/feed/update/" +:+ js_str (data_id created);
           pub_publishedAt := now w' |}.
Proof.
  intros Hmedia Hrun. pose proof Hrun as Hrun0.
  unfold publishToLinkedIn in Hrun.
  apply try_catch_returned in Hrun as [Hrun|(e & w0 & _ & Hh)]; [|discriminate Hh].
  apply bind_returned in Hrun as (today & w0 & Hdate & Hrun).
  injection Hdate as <- <-.
  destruct (token_expired account (now w)); [discriminate Hrun|].
  apply bind_returned in Hrun as (profile & w1 & Hprofile & Hrun).
  apply axios_returned in Hprofile as (Hres1 & _ & Hc1).
  apply bind_returned in Hrun as (postData & w2 & Hpd & Hrun).
  rewrite Hmedia in Hpd. injection Hpd as <- <-.
  apply bind_returned in Hrun as (created & w5 & Hpost & Hrun).
  apply axios_returned in Hpost as (Hres5 & _ & Hc5).
  apply bind_returned in Hrun as (stamp & w6 & Hdate & Hret).
  injection Hdate as <- <-. injection Hret as <- <-.
  rewrite Hc1, length_app in Hres5, Hc5. simpl in Hres5, Hc5.
  exists profile, created. split_and!; [exact Hres1|exact Hres5| |done].
  eapply calls_made_eq; [exact Hrun0|]. rewrite Hc5. by rewrite <- app_assoc.
Qed.

(** X6. A post with media that the LinkedIn publisher reports published took
    exactly five calls, in this order: the profile request, answered with
    [profile]; the user id request, answered with [uid]; the
    registration of an upload slot owned by that [uid], answered with a
    [slot]; the transfer of the first media file's bytes to that
    [slot]'s upload URL; and only then the post request, authored by
    [profile]'s id and referencing that [slot]'s asset, answered with
    [created], whose id the result carries.  The log holds these five
    requests with the replies the remote API gave them.  Media files
    after the first are not uploaded. *)
Theorem linkedin_media_post env post account w p w' mediaPath others :
  mediaUrls post = mediaPath :: others ->
  publishToLinkedIn env post account w = (Returned p, w') ->
  exists profile uid registered slot bytes uploaded created,
    let token := accessToken account in
    let n := length (calls w) in
    let r1 := profile_request token in
    let r2 := userId_request token in
    let r3 := register_request token (data_id uid) in
    let r4 := upload_request token slot bytes in
    let r5 :=
      ugcPost_request token profile (content post) "IMAGE"
        [{| media_description :=
              js_or (title post) "Shared via Social Media Automation";
            media_urn := asset slot;
            media_title := js_or (title post) "Social Media Post" |}] in
    readFileSync env mediaPath = Some bytes /\
    result (remote env n r1) = Returned profile /\
    result (remote env (n + 1) r2) = Returned uid /\
    result (remote env (n + 1 + 1) r3) = Returned registered /\
    data_value registered = Some slot /\
    result (remote env (n + 1 + 1 + 1) r4) = Returned uploaded /\
    result (remote env (n + 1 + 1 + 1 + 1) r5) = Returned created /\
    calls_made (publishToLinkedIn env post account) w
      = [{| call_request := r1; call_reply := remote env n r1 |};
         {| call_request := r2; call_reply := remote env (n + 1) r2 |};
         {| call_request := r3; call_reply := remote env (n + 1 + 1) r3 |};
         {| call_request := r4; call_reply := remote env (n + 1 + 1 + 1) r4 |};
         {| call_request := r5; call_reply := remote env (n + 1 + 1 + 1 + 1) r5 |}] /\
    p = {| platformPostId := data_id created;
           url := "https://linkedin.com/feed/update/" +:+ js_str (data_id created);
           pub_publishedAt := now w' |}.
Proof.
  intros Hmedia Hrun. pose proof Hrun as Hrun0.
  unfold publishToLinkedIn in Hrun.
  apply try_catch_returned in Hrun as [Hrun|(e & w0 & _ & Hh)]; [|discriminate Hh].
  apply bind_returned in Hrun as (today & w0 & Hdate & Hrun).
  injection Hdate as <- <-.
  destruct (token_expired account (now w)); [discriminate Hrun|].
  apply bind_returned in Hrun as (profile & w1 & Hprofile & Hrun).
  apply axios_returned in Hprofile as (Hres1 & _ & Hc1).
  apply bind_returned in Hrun as (postData & w4 & Hupload & Hrun).
  rewrite Hmedia in Hupload.
  apply bind_returned in Hupload as (mediaUrn & w4' & Hupload & Hret).
  injection Hret as <- <-.
  unfold uploadMediaToLinkedIn in Hupload.
  apply try_catch_returned in Hupload as [Hupload|(e & w0 & _ & Hh)]; [|discriminate Hh].
  apply bind_returned in Hupload as (uidv & w2 & Huid & Hupload).
  unfold getUserId in Huid.
  apply bind_returned in Huid as (uid & w2' & Huid & Hret).
  injection Hret as <- <-.
  apply axios_returned in Huid as (Hres2 & _ & Hc2).
  apply bind_returned in Hupload as (registered & w3 & Hreg & Hupload).
  apply axios_returned in Hreg as (Hres3 & _ & Hc3).
  destruct (data_value registered) as [slot|] eqn:Hslot; [|discriminate Hupload].
  destruct (readFileSync env mediaPath) as [bytes|] eqn:Hfile; [|discriminate Hupload].
  apply bind_returned in Hupload as (uploaded & w4 & Hput & Hret).
  injection Hret as <- <-.
  apply axios_returned in Hput as (Hres4 & _ & Hc4).
  apply bind_returned in Hrun as (created & w5 & Hpost & Hrun).
  apply axios_returned in Hpost as (Hres5 & _ & Hc5).
  apply bind_returned in Hrun as (stamp & w6 & Hdate & Hret).
  injection Hdate as <- <-. injection Hret as <- <-.
  rewrite Hc1, !length_app in Hres2, Hc2. simpl in Hres2, Hc2.
  rewrite Hc2, !length_app in Hres3, Hc3. simpl in Hres3, Hc3.
  rewrite Hc3, !length_app in Hres4, Hc4. simpl in Hres4, Hc4.
  rewrite Hc4, !length_app in Hres5, Hc5. simpl in Hres5, Hc5.
  exists profile, uid, registered, slot, bytes, uploaded, created. simpl.
  split_and!; [done|exact Hres1|exact Hres2|exact Hres3|done|exact Hres4|exact Hres5| |done].
  eapply calls_made_eq; [exact Hrun0|]. rewrite Hc5. by rewrite <- !app_assoc.
Qed.

(** ** Properties of all the calls of a computation *)

Section CallsSatisfy.
Context (P : Call -> Prop).

Lemma cs_ret {A} (a : A) : calls_satisfy P (ret a).
Proof. intros w. exists []. by rewrite app_nil_r. Qed.

Lemma cs_throw {A} (e : JsError) : calls_satisfy P (@throw A e).
Proof. intros w. exists []. by rewrite app_nil_r. Qed.

Lemma cs_new_Date : calls_satisfy P new_Date.
Proof. intros w. exists []. by rewrite app_nil_r. Qed.

Lemma cs_axios env r :
  (forall rep, P {| call_request := r; call_reply := rep |}) ->
  calls_satisfy P (axios env r).
Proof. intros HP w. eexists [_]. split; [reflexivity|]. by constructor. Qed.

Lemma cs_bind {A B} (c : M A) (k : A -> M B) :
  calls_satisfy P c -> (forall a, calls_satisfy P (k a)) ->
  calls_satisfy P (bind c k).
Proof.
  intros Hc Hk w. destruct (Hc w) as (new1 & Hcalls1 & HP1).
  unfold after, bind in *. destruct (c w) as [[a|e] w1]; simpl in *.
  - destruct (Hk a w1) as (new2 & Hcalls2 & HP2). unfold after in Hcalls2.
    exists (new1 ++ new2). split; [|by apply Forall_app].
    by rewrite Hcalls2, Hcalls1, app_assoc.
  - by exists new1.
Qed.

Lemma cs_try_catch {A} (c : M A) (h : JsError -> M A) :
  calls_satisfy P c -> (forall e, calls_satisfy P (h e)) ->
  calls_satisfy P (try_catch c h).
Proof.
  intros Hc Hh w. destruct (Hc w) as (new1 & Hcalls1 & HP1).
  unfold after, try_catch in *. destruct (c w) as [[a|e] w1]; simpl in *.
  - by exists new1.
  - destruct (Hh e w1) as (new2 & Hcalls2 & HP2). unfold after in Hcalls2.
    exists (new1 ++ new2). split; [|by apply Forall_app].
    by rewrite Hcalls2, Hcalls1, app_assoc.
Qed.
End CallsSatisfy.

Ltac cs_tac :=
  repeat first
    [ apply cs_ret | apply cs_throw | apply cs_new_Date
    | apply cs_bind; [|intros ?]
    | apply cs_try_catch; [|intros ?]
    | match goal with
      | |- calls_satisfy _ (match ?x with _ => _ end) => destruct x
      end ].

Lemma cs_weaken {A} (P Q : Call -> Prop) (c : M A) :
  (forall x, P x -> Q x) -> calls_satisfy P c -> calls_satisfy Q c.
Proof.
  intros HPQ Hc w. destruct (Hc w) as (new & Hcalls & HP).
  exists new. split; [done|]. eapply Forall_impl; eauto.
Qed.

(** ** Whose token the calls carry *)

Lemma uploadMediaToLinkedIn_bearer env mediaPath token :
  calls_satisfy (fun c => bearer token ∈ req_headers (call_request c))
    (uploadMediaToLinkedIn env mediaPath token).
Proof.
  unfold uploadMediaToLinkedIn, getUserId, axios_get, axios_post.
  cs_tac; apply cs_axios; intros rep; simpl; apply list_elem_of_here.
Qed.

Lemma publishToLinkedIn_bearer env post account :
  calls_satisfy
    (fun c => bearer (accessToken account) ∈ req_headers (call_request c))
    (publishToLinkedIn env post account).
Proof.
  unfold publishToLinkedIn, axios_get, axios_post.
  cs_tac;
    first [ apply uploadMediaToLinkedIn_bearer
          | apply cs_axios; intros rep; simpl; apply list_elem_of_here ].
Qed.

Lemma publishOne_authorised env post accounts platform :
  calls_satisfy (fun c => platform = "LINKEDIN" /\ authorised_by accounts c)
    (publishOne env post accounts platform).
Proof.
  unfold publishOne.
  destruct (find_account accounts platform) as [account|] eqn:Hacc; [|apply cs_ret].
  apply cs_try_catch; [|intros ?; apply cs_ret].
  apply cs_bind; [|intros ?; apply cs_ret].
  unfold publishTo, publishToInstagram, publishToTikTok, publishToFacebook.
  repeat case_decide; try apply cs_throw. subst platform.
  eapply cs_weaken; [|apply publishToLinkedIn_bearer].
  intros c Hc. split; [done|]. by exists account.
Qed.

Lemma loop_run_authorised env post accounts todo w rs w' :
  loop_run env post accounts todo w rs w' ->
  exists new,
    calls w' = calls w ++ new /\
    Forall (fun c => "LINKEDIN" ∈ todo /\ authorised_by accounts c) new.
Proof.
  induction 1 as [w|platform rest w r w1 rs w2 Hr Hrest IH].
  - exists []. by rewrite app_nil_r.
  - destruct (publishOne_authorised env post accounts platform w)
      as (new1 & Hcalls1 & HP1).
    unfold after in Hcalls1. rewrite Hr in Hcalls1. simpl in Hcalls1.
    destruct IH as (new2 & Hcalls2 & HP2).
    exists (new1 ++ new2). split; [by rewrite Hcalls2, Hcalls1, app_assoc|].
    apply Forall_app. split.
    + eapply Forall_impl; [exact HP1|]. intros c [-> Hc]. split; [|done].
      apply list_elem_of_here.
    + eapply Forall_impl; [exact HP2|]. intros c [Hin Hc]. split; [|done].
      by apply list_elem_of_further.
Qed.

(** X7. Every call a run of the worker makes, whatever the run, is made for a
    post that exists, is not yet published and targets LINKEDIN, and it
    carries the bearer token of the active LinkedIn account of the post's
    author.  So a run makes no call at all unless there is such a post
    and such an account. *)
Theorem worker_calls_are_authorised env job w c :
  c ∈ calls_made (postWorker env job) w ->
  exists post,
    posts w !! data_postId job = Some post /\
    status post <> PUBLISHED /\
    "LINKEDIN" ∈ platforms post /\
    authorised_by (include_socialAccounts w post) c.
Proof.
  unfold calls_made.
  generalize (postWorker_run env job w).
  generalize (completion (postWorker env job) w) (after (postWorker env job) w).
  intros cpl w' Hrun.
  assert (forall w1 rs post,
            loop_run env post (include_socialAccounts w post) (platforms post)
              (tick_db w) rs w1 ->
            forall w2, calls w2 = calls w1 ->
            posts w !! data_postId job = Some post ->
            status post <> PUBLISHED ->
            c ∈ drop (length (calls w)) (calls w2) ->
            exists post,
              posts w !! data_postId job = Some post /\
              status post <> PUBLISHED /\
              "LINKEDIN" ∈ platforms post /\
              authorised_by (include_socialAccounts w post) c) as Hloop.
  { intros w1 rs post Hl w2 Hw2 Hpost Hst Hin.
    destruct (loop_run_authorised _ _ _ _ _ _ _ Hl) as (new & Hcalls & HP).
    simpl in Hcalls. rewrite Hw2, Hcalls, drop_app_length in Hin.
    rewrite Forall_forall in HP. destruct (HP c Hin) as [Hli Hauth].
    by exists post. }
  assert (forall w0, calls w0 = calls w ->
            c ∈ drop (length (calls w)) (calls w0) -> False) as Hnone.
  { intros w0 Hw0 Hin. rewrite Hw0, drop_all in Hin. by apply not_elem_of_nil in Hin. }
  destruct Hrun as [Hload|Hload Hpost|post Hload Hpost Hst
                    |post rs w1 Hload Hpost Hst Hl Hpersist
                    |post rs w1 Hload Hpost Hst Hl Hpersist]; intros Hin.
  - destruct (Hnone _ (proj1 (proj2 (proj2 (proj2 (proj2
        (mark_failed_frame env (data_postId job) (tick_db w))))))) Hin).
  - destruct (Hnone _ (proj1 (proj2 (proj2 (proj2 (proj2
        (mark_failed_frame env (data_postId job) (tick_db w))))))) Hin).
  - destruct (Hnone (tick_db w) eq_refl Hin).
  - by eapply (Hloop w1 rs post Hl _ eq_refl).
  - eapply (Hloop w1 rs post Hl); [|done|done|exact Hin].
    by destruct (mark_failed_frame env (data_postId job) (tick_db w1))
      as (_ & _ & _ & _ & -> & _).
Qed.

(** ** The post request comes last *)

Lemma bind_inv {A B} (c : M A) (k : A -> M B) w o w' :
  bind c k w = (o, w') ->
  (exists a w1, c w = (Returned a, w1) /\ k a w1 = (o, w')) \/
  (exists e, c w = (Threw e, w') /\ o = Threw e).
Proof.
  unfold bind. destruct (c w) as [[a|e] w1]; intros H.
  - left. by exists a, w1.
  - right. injection H as <- <-. by exists e.
Qed.

Lemma try_catch_inv {A} (c : M A) (h : JsError -> M A) w o w' :
  try_catch c h w = (o, w') ->
  (exists a, c w = (Returned a, w') /\ o = Returned a) \/
  (exists e w1, c w = (Threw e, w1) /\ h e w1 = (o, w')).
Proof.
  unfold try_catch. destruct (c w) as [[a|e] w1]; intros H.
  - left. injection H as <- <-. by exists a.
  - right. by exists e, w1.
Qed.

Lemma axios_inv env r w o w1 :
  axios env r w = (o, w1) ->
  exists c,
    call_request c = r /\ calls w1 = calls w ++ [c] /\
    ((exists d, o = Returned d) -> answered c).
Proof.
  unfold axios. intros H. injection H as <- <-.
  exists {| call_request := r; call_reply := remote env (length (calls w)) r |}.
  split_and!; [reflexivity|reflexivity|].
  intros [d Hd]. by exists d.
Qed.

Lemma uploadMediaToLinkedIn_no_post env mediaPath token :
  calls_satisfy (fun c => ~ is_ugcPost c) (uploadMediaToLinkedIn env mediaPath token).
Proof.
  unfold uploadMediaToLinkedIn, getUserId, axios_get, axios_post.
  cs_tac; apply cs_axios; intros rep (? & ? & ? & ? & H); discriminate H.
Qed.

(** The calls of one run of the LinkedIn publisher: some calls that are
    not the post request, then possibly the post request, in which case
    the calls before it were all answered. *)
Lemma publishToLinkedIn_shape env post account w o w' :
  publishToLinkedIn env post account w = (o, w') ->
  exists pre,
    Forall (fun c => ~ is_ugcPost c) pre /\
    (calls w' = calls w ++ pre /\ ~ (exists p, o = Returned p) \/
     Forall answered pre /\
     exists c, is_ugcPost c /\ calls w' = calls w ++ pre ++ [c] /\
               ((exists p, o = Returned p) -> answered c)).
Proof.
  intros H. unfold publishToLinkedIn in H.
  assert (exists o1,
            (do today <- new_Date;
             if token_expired account today
             then throw (new_Error "LinkedIn access token expired")
             else
               do profileResponse <-
                 axios_get env (LINKEDIN_CONFIG_apiUrl +:+ "/me")
                   [("Authorization", "Bearer " +:+ accessToken account);
                    ("Content-Type", "application/json");
                    ("X-Restli-Protocol-Version", "2.0.0")];
               do postData <-
                 match mediaUrls post with
                 | mediaPath :: _ =>
                     do mediaUrn <-
                       uploadMediaToLinkedIn env mediaPath (accessToken account);
                     ret (UgcPost
                            ("urn:li:person:" +:+ js_str (data_id profileResponse))
                            (content post) "IMAGE"
                            [{| media_description :=
                                  js_or (title post) "Shared via Social Media Automation";
                                media_urn := mediaUrn;
                                media_title := js_or (title post) "Social Media Post" |}])
                 | [] =>
                     ret (UgcPost
                            ("urn:li:person:" +:+ js_str (data_id profileResponse))
                            (content post) "NONE" [])
                 end;
               do response <-
                 axios_post env (LINKEDIN_CONFIG_apiUrl +:+ "/ugcPosts") postData
                   [("Authorization", "Bearer " +:+ accessToken account);
                    ("Content-Type", "application/json");
                    ("X-Restli-Protocol-Version", "2.0.0")];
               do stamp <- new_Date;
               ret {| platformPostId := data_id response;
                      url := "https://linkedin.com/feed/update/"
                               +:+ js_str (data_id response);
                      pub_publishedAt := stamp |}) w = (o1, w') /\
            ((exists p, o = Returned p) -> exists p, o1 = Returned p)) as (o1 & Hbody & Hret).
  { apply try_catch_inv in H as [(a & H & ->)|(e & w1 & H & Hh)].
    - exists (Returned a). split; [done|]. intros _. by exists a.
    - injection Hh as <- <-. exists (Threw e). split; [done|].
      intros [p Hp]. discriminate Hp. }
  clear H.
  apply bind_inv in Hbody as [(today & w0 & Hdate & Hbody)|(e & Hdate & _)];
    [|discriminate Hdate].
  injection Hdate as <- <-.
  destruct (token_expired account (now w)).
  { injection Hbody as <- <-. exists []. split; [done|]. left.
    rewrite app_nil_r. split; [done|].
    intros Hp. destruct (Hret Hp) as [p Hp']. discriminate Hp'. }
  apply bind_inv in Hbody as [(profile & w1 & Hprofile & Hbody)|(e & Hprofile & ->)].
  2: { apply axios_inv in Hprofile as (c1 & Hreq1 & Hcalls1 & _).
       exists [c1]. split.
       - constructor; [|done]. intros (? & ? & ? & ? & Hb).
         rewrite Hreq1 in Hb. discriminate Hb.
       - left. split; [done|].
         intros Hp. destruct (Hret Hp) as [p Hp']. discriminate Hp'. }
  apply axios_inv in Hprofile as (c1 & Hreq1 & Hcalls1 & Hans1).
  assert (~ is_ugcPost c1) as Hno1.
  { intros (? & ? & ? & ? & Hb). rewrite Hreq1 in Hb. discriminate Hb. }
  assert (answered c1) as Hok1 by (apply Hans1; by eexists).
  apply bind_inv in Hbody as [(postData & w4 & Hpd & Hbody)|(e & Hpd & ->)].
  - assert (exists l, calls w4 = calls w1 ++ l /\
                      Forall (fun c => ~ is_ugcPost c) l /\ Forall answered l /\
                      exists a t g m, postData = UgcPost a t g m)
      as (l & Hcalls4 & Hno4 & Hok4 & Hugc).
    { destruct (mediaUrls post) as [|mediaPath others].
      - injection Hpd as <- <-. exists []. rewrite app_nil_r.
        split_and!; try done. by eexists _, _, _, _.
      - apply bind_returned in Hpd as (urn & w3 & Hup & Hr).
        injection Hr as <- <-.
        destruct (roa_uploadMediaToLinkedIn _ _ _ _ _ _ Hup) as (l & Hl & Hokl).
        destruct (uploadMediaToLinkedIn_no_post env mediaPath (accessToken account) w1)
          as (l' & Hl' & Hnol).
        unfold after in Hl'. rewrite Hup in Hl'. simpl in Hl'.
        rewrite Hl in Hl'. apply app_inv_head in Hl'. subst l'.
        exists l. split_and!; try done. by eexists _, _, _, _. }
    assert (exists c5 w5,
              call_request c5
                = {| req_method := POST;
                     req_url := LINKEDIN_CONFIG_apiUrl +:+ "/ugcPosts";
                     req_headers :=
                       [("Authorization", "Bearer " +:+ accessToken account);
                        ("Content-Type", "application/json");
                        ("X-Restli-Protocol-Version", "2.0.0")];
                     req_body := postData |} /\
              calls w5 = calls w4 ++ [c5] /\ calls w' = calls w5 /\
              ((exists p, o1 = Returned p) -> answered c5))
      as (c5 & w5 & Hreq5 & Hcalls5 & Hw' & Hans5).
    { apply bind_inv in Hbody as [(response & w5 & Hpost & Hbody)|(e & Hpost & ->)].
      - apply axios_inv in Hpost as (c5 & Hreq5 & Hcalls5 & Hans5).
        unfold bind, new_Date, ret in Hbody. injection Hbody as <- <-.
        exists c5, w5. split_and!; try done.
        intros _. apply Hans5. by eexists.
      - apply axios_inv in Hpost as (c5 & Hreq5 & Hcalls5 & _).
        exists c5, w'. split_and!; try done.
        intros [p Hp]. discriminate Hp. }
    exists (c1 :: l). split; [by constructor|]. right.
    split; [by constructor|]. exists c5. split_and!.
    + destruct Hugc as (a & t & g & m & ->). exists a, t, g, m. by rewrite Hreq5.
    + rewrite Hw', Hcalls5, Hcalls4, Hcalls1. by rewrite <- !app_assoc.
    + intros Hp. by apply Hans5, Hret.
  - assert (exists l, calls w' = calls w1 ++ l /\ Forall (fun c => ~ is_ugcPost c) l)
      as (l & Hcalls4 & Hno4).
    { destruct (mediaUrls post) as [|mediaPath others]; [discriminate Hpd|].
      apply bind_inv in Hpd as [(urn & w3 & Hup & Hr)|(e' & Hup & _)];
        [discriminate Hr|].
      destruct (uploadMediaToLinkedIn_no_post env mediaPath (accessToken account) w1)
        as (l & Hl & Hnol).
      unfold after in Hl. rewrite Hup in Hl. by exists l. }
    exists (c1 :: l). split; [by constructor|]. left. split.
    + rewrite Hcalls4, Hcalls1. by rewrite <- app_assoc.
    + intros Hp. destruct (Hret Hp) as [p Hp']. discriminate Hp'.
Qed.

Lemma marker_is_last {A} (P : A -> Prop) l x before c rest :
  Forall (fun a => ~ P a) l -> P c ->
  before ++ c :: rest = l ++ [x] ->
  before = l /\ c = x /\ rest = [].
Proof.
  intros Hl Hc. revert before.
  induction Hl as [|a l Ha Hl IH]; intros before Heq.
  - destruct before as [|b [|b' bs]]; simpl in Heq.
    + injection Heq as -> ->. done.
    + injection Heq as _ Heq. discriminate Heq.
    + injection Heq as _ Heq. discriminate Heq.
  - destruct before as [|b bs]; simpl in Heq.
    + injection Heq as -> _. by destruct Ha.
    + injection Heq as -> Heq. destruct (IH bs Heq) as (-> & -> & ->). done.
Qed.

Lemma no_marker {A} (P : A -> Prop) l before c rest :
  Forall (fun a => ~ P a) l -> P c -> before ++ c :: rest <> l.
Proof.
  intros Hl Hc <-. apply Forall_app in Hl as [_ Hl].
  apply Forall_cons in Hl as [Hl _]. by apply Hl.
Qed.

(** X8. In every run of the LinkedIn publisher, returned or thrown, the post
    request is issued at most once, it is the last call of the run, and
    every call before it was answered: nothing is posted before the
    profile, and for a post with media the upload, has succeeded. *)
Theorem linkedin_post_request_is_last env post account w before c rest :
  calls_made (publishToLinkedIn env post account) w = before ++ c :: rest ->
  is_ugcPost c ->
  rest = [] /\
  Forall answered before /\
  Forall (fun c' => ~ is_ugcPost c') before.
Proof.
  intros Hmade Hc. unfold calls_made, after in Hmade.
  destruct (publishToLinkedIn env post account w) as [o w'] eqn:Hrun.
  destruct (publishToLinkedIn_shape _ _ _ _ _ _ Hrun)
    as (pre & Hpre & [[Hcalls _]|(Hok & c5 & Hc5 & Hcalls & _)]);
    simpl in Hmade; rewrite Hcalls, drop_app_length in Hmade.
  - symmetry in Hmade. by destruct (no_marker is_ugcPost pre before c rest).
  - symmetry in Hmade.
    destruct (marker_is_last is_ugcPost pre c5 before c rest Hpre Hc Hmade)
      as (-> & -> & ->).
    done.
Qed.

Lemma linkedin_post_request_is_last_witness :
  @nil Call = [] /\
  Forall answered [{| call_request := profile_request "tok-li";
                      call_reply := ok_reply |}] /\
  Forall (fun c' => ~ is_ugcPost c')
    [{| call_request := profile_request "tok-li"; call_reply := ok_reply |}].
Proof.
  apply (linkedin_post_request_is_last online two_targets linkedin_account
           two_targets_world
           [{| call_request := profile_request "tok-li"; call_reply := ok_reply |}]
           {| call_request :=
                ugcPost_request "tok-li"
                  {| data_id := Some "urn:li:share:1";
                     data_value := Some {| uploadUrl := "https://upload.example/slot";
                                           asset := "urn:li:digitalmediaAsset:1" |} |}
                  "hello" "NONE" [];
              call_reply := ok_reply |}
           []).
  - reflexivity.
  - by eexists _, _, _, _.
Defined.

(** When the publisher returns, the post request was made and answered. *)
Lemma publishToLinkedIn_returned_posted env post account w p w' :
  publishToLinkedIn env post account w = (Returned p, w') ->
  exists c, c ∈ drop (length (calls w)) (calls w') /\ is_ugcPost c /\ answered c.
Proof.
  intros Hrun.
  destruct (publishToLinkedIn_shape _ _ _ _ _ _ Hrun)
    as (pre & Hpre & [[_ Hno]|(Hok & c5 & Hc5 & Hcalls & Hans)]).
  - destruct Hno. by exists p.
  - exists c5. split_and!; [|done|apply Hans; by exists p].
    rewrite Hcalls, drop_app_length. apply elem_of_app. right.
    apply list_elem_of_here.
Qed.


(** ** PUBLISHED means LinkedIn accepted the post *)

Lemma publishOne_success_posted env post accounts platform w r w1 :
  publishOne env post accounts platform w = (Returned r, w1) ->
  exists new,
    calls w1 = calls w ++ new /\
    (is_error r = false -> exists c, c ∈ new /\ is_ugcPost c /\ answered c).
Proof.
  intros Hone.
  destruct (find_account accounts platform) as [account|] eqn:Hacc.
  2: { rewrite publishOne_no_account in Hone by done. injection Hone as <- <-.
       exists []. rewrite app_nil_r. split; [done|]. discriminate. }
  destruct (publishTo env platform post account w) as [[p|e] w2] eqn:Hpub.
  2: { rewrite (publishOne_caught _ _ _ _ _ _ _ _ Hacc Hpub) in Hone.
       injection Hone as <- <-.
       destruct (net_only_publishTo env platform post account w) as [_ _ _ _ _ _ [k Hk]].
       unfold after in Hk. rewrite Hpub in Hk. exists k. split; [done|]. discriminate. }
  rewrite (publishOne_published _ _ _ _ _ _ _ _ Hacc Hpub) in Hone.
  injection Hone as <- <-.
  destruct (decide (platform = "LINKEDIN")) as [->|Hne].
  2: { destruct (publishTo_placeholder env platform post account w Hne) as (msg & Hthrow).
       rewrite Hthrow in Hpub. discriminate Hpub. }
  unfold publishTo in Hpub. rewrite decide_True in Hpub by done.
  destruct (publishToLinkedIn_shape _ _ _ _ _ _ Hpub)
    as (pre & Hpre & [[_ Hno]|(Hok & c5 & Hc5 & Hcalls & Hans)]).
  { destruct Hno. by exists p. }
  exists (pre ++ [c5]). split; [done|]. intros _. exists c5. split_and!.
  - apply elem_of_app. right. apply list_elem_of_here.
  - done.
  - apply Hans. by exists p.
Qed.

Lemma loop_run_success_posted env post accounts todo w rs w' :
  loop_run env post accounts todo w rs w' ->
  exists new,
    calls w' = calls w ++ new /\
    forall r, r ∈ rs -> is_error r = false ->
              exists c, c ∈ new /\ is_ugcPost c /\ answered c.
Proof.
  induction 1 as [w|platform rest w r w1 rs w2 Hr Hrest IH].
  - exists []. rewrite app_nil_r. split; [done|]. intros r Hin.
    by apply not_elem_of_nil in Hin.
  - destruct (publishOne_success_posted _ _ _ _ _ _ _ Hr) as (new1 & Hcalls1 & Hhead).
    destruct IH as (new2 & Hcalls2 & Htail).
    exists (new1 ++ new2). split; [by rewrite Hcalls2, Hcalls1, app_assoc|].
    intros r' Hin Hok. apply elem_of_cons in Hin as [->|Hin].
    + destruct (Hhead Hok) as (c & Hc & ?). exists c. split; [|done].
      apply elem_of_app. by left.
    + destruct (Htail r' Hin Hok) as (c & Hc & ?). exists c. split; [|done].
      apply elem_of_app. by right.
Qed.

Lemma not_allFailed results :
  forallb is_error results = false ->
  exists r, r ∈ results /\ is_error r = false.
Proof.
  induction results as [|r rs IH]; simpl; [discriminate|].
  destruct (is_error r) eqn:Hr; simpl.
  - intros H. destruct (IH H) as (r' & Hin & Hr'). exists r'. split; [|done].
    by apply list_elem_of_further.
  - intros _. exists r. split; [apply list_elem_of_here|done].
Qed.

(** X9. A run of the worker turns a post PUBLISHED only if, during that run,
    a post request to LinkedIn was made and answered. *)
Theorem published_means_linkedin_accepted env job w :
  status_of w (data_postId job) <> Some PUBLISHED ->
  status_of (after (postWorker env job) w) (data_postId job) = Some PUBLISHED ->
  exists c,
    c ∈ calls_made (postWorker env job) w /\ is_ugcPost c /\ answered c.
Proof.
  unfold calls_made, status_of.
  generalize (postWorker_run env job w).
  generalize (completion (postWorker env job) w) (after (postWorker env job) w).
  intros cpl w' Hrun Hbefore Hafter.
  assert (forall w0, posts w0 = posts w ->
            status <$> posts (mark_failed env (data_postId job) w0) !! data_postId job
              <> Some PUBLISHED) as Hmark.
  { intros w0 Hw0.
    destruct (mark_failed_frame env (data_postId job) w0)
      as (_ & _ & _ & _ & _ & [Heq|(p & Hp & Heq)]); rewrite Heq.
    - by rewrite Hw0.
    - simpl. discriminate. }
  destruct Hrun as [Hload|Hload Hpost|post Hload Hpost Hst
                    |post rs w1 Hload Hpost Hst Hl Hpersist
                    |post rs w1 Hload Hpost Hst Hl Hpersist].
  - by destruct (Hmark (tick_db w) eq_refl).
  - by destruct (Hmark (tick_db w) eq_refl).
  - simpl in Hafter. by destruct Hbefore.
  - simpl in Hafter. rewrite lookup_insert_eq in Hafter. simpl in Hafter.
    destruct (forallb is_error rs) eqn:Hall; [discriminate Hafter|].
    destruct (not_allFailed rs Hall) as (r & Hin & Hok).
    destruct (loop_run_success_posted _ _ _ _ _ _ _ Hl) as (new & Hcalls & Hposted).
    destruct (Hposted r Hin Hok) as (c & Hc & Hugc & Hans).
    exists c. split_and!; [|done|done].
    simpl. simpl in Hcalls. by rewrite Hcalls, drop_app_length.
  - destruct (Hmark (tick_db w1)); [|done].
    simpl. apply loop_run_net in Hl. by destruct Hl.
Qed.

Lemma published_means_linkedin_accepted_witness :
  exists c,
    c ∈ calls_made (postWorker online job_p1) two_targets_world /\
    is_ugcPost c /\ answered c.
Proof.
  apply (published_means_linkedin_accepted online job_p1 two_targets_world).
  - vm_compute. discriminate.
  - reflexivity.
Defined.

(** ** A token that has not expired is used *)

(** X10. When the LinkedIn account has no expiry date, or one strictly after
    the current time, the publisher does go to the network: its first
    call is the profile request with the account's token. *)
Theorem unexpired_token_is_used env post account w :
  (expiresAt account = None \/ exists t, expiresAt account = Some t /\ now w < t) ->
  exists rest,
    call_request <$> calls_made (publishToLinkedIn env post account) w
      = profile_request (accessToken account) :: rest.
Proof.
  intros Hfresh.
  assert (token_expired account (now w) = false) as Hexp.
  { unfold token_expired. destruct Hfresh as [->|(t & -> & Hlt)]; [done|].
    apply bool_decide_eq_false_2. lia. }
  unfold calls_made, after.
  destruct (publishToLinkedIn env post account w) as [o w'] eqn:Hrun. simpl.
  assert (exists c1 k, call_request c1 = profile_request (accessToken account) /\
                       calls w' = (calls w ++ [c1]) ++ k) as (c1 & k & Hreq & Hcalls).
  { unfold publishToLinkedIn in Hrun.
    assert (exists o1,
              (do today <- new_Date;
               if token_expired account today
               then throw (new_Error "LinkedIn access token expired")
               else
                 do profileResponse <-
                   axios_get env (LINKEDIN_CONFIG_apiUrl +:+ "/me")
                     [("Authorization", "Bearer " +:+ accessToken account);
                      ("Content-Type", "application/json");
                      ("X-Restli-Protocol-Version", "2.0.0")];
                 do postData <-
                   match mediaUrls post with
                   | mediaPath :: _ =>
                       do mediaUrn <-
                         uploadMediaToLinkedIn env mediaPath (accessToken account);
                       ret (UgcPost
                              ("urn:li:person:" +:+ js_str (data_id profileResponse))
                              (content post) "IMAGE"
                              [{| media_description :=
                                    js_or (title post)
                                      "Shared via Social Media Automation";
                                  media_urn := mediaUrn;
                                  media_title :=
                                    js_or (title post) "Social Media Post" |}])
                   | [] =>
                       ret (UgcPost
                              ("urn:li:person:" +:+ js_str (data_id profileResponse))
                              (content post) "NONE" [])
                   end;
                 do response <-
                   axios_post env (LINKEDIN_CONFIG_apiUrl +:+ "/ugcPosts") postData
                     [("Authorization", "Bearer " +:+ accessToken account);
                      ("Content-Type", "application/json");
                      ("X-Restli-Protocol-Version", "2.0.0")];
                 do stamp <- new_Date;
                 ret {| platformPostId := data_id response;
                        url := "https://linkedin.com/feed/update/"
                                 +:+ js_str (data_id response);
                        pub_publishedAt := stamp |}) w = (o1, w')) as (o1 & Hbody).
    { apply try_catch_inv in Hrun as [(a & H & _)|(e & w1 & H & Hh)].
      - by eexists.
      - injection Hh as _ <-. by eexists. }
    apply bind_inv in Hbody as [(today & w0 & Hdate & Hbody)|(e & Hdate & _)];
      [|discriminate Hdate].
    injection Hdate as <- <-. rewrite Hexp in Hbody.
    apply bind_inv in Hbody as [(profile & w1 & Hprofile & Hbody)|(e & Hprofile & _)].
    - apply axios_inv in Hprofile as (c1 & Hreq1 & Hcalls1 & _).
      match type of Hbody with
      | ?f w1 = _ => assert (net_only f) as Hnet
      end.
      { unfold axios_post. net_only_tac; apply net_only_uploadMediaToLinkedIn. }
      destruct (Hnet w1) as [_ _ _ _ _ _ [k Hk]].
      unfold after in Hk. rewrite Hbody in Hk. simpl in Hk.
      exists c1, k. split; [done|]. by rewrite Hk, Hcalls1.
    - apply axios_inv in Hprofile as (c1 & Hreq1 & Hcalls1 & _).
      exists c1, []. split; [done|]. by rewrite app_nil_r. }
  rewrite Hcalls, <- app_assoc, drop_app_length. simpl. rewrite Hreq.
  by eexists.
Qed.

Lemma unexpired_token_is_used_witness :
  exists rest,
    call_request <$> calls_made (publishToLinkedIn throttled two_targets
                                   linkedin_account) two_targets_world
      = profile_request "tok-li" :: rest.
Proof.
  apply (unexpired_token_is_used throttled two_targets linkedin_account
           two_targets_world).
  left. reflexivity.
Defined.

(** ** Runs behind the call theorems *)

Lemma linkedin_text_post_witness :
  exists profile created,
    result (remote online 0 (profile_request "tok-li")) = Returned profile /\
    result (remote online 1 (ugcPost_request "tok-li" profile "hello" "NONE" []))
      = Returned created /\
    calls_made (publishToLinkedIn online two_targets linkedin_account)
        two_targets_world
      = [{| call_request := profile_request "tok-li";
            call_reply := remote online 0 (profile_request "tok-li") |};
         {| call_request := ugcPost_request "tok-li" profile "hello" "NONE" [];
            call_reply :=
              remote online 1
                (ugcPost_request "tok-li" profile "hello" "NONE" []) |}] /\
    {| platformPostId := Some "urn:li:share:1";
       url := "https://linkedin.com/feed/update/urn:li:share:1";
       pub_publishedAt := 1010 |}
    = {| platformPostId := data_id created;
         url := "https://linkedin.com/feed/update/" +:+ js_str (data_id created);
         pub_publishedAt :=
           now (after (publishToLinkedIn online two_targets linkedin_account)
                  two_targets_world) |}.
Proof.
  apply (linkedin_text_post online two_targets linkedin_account two_targets_world
           {| platformPostId := Some "urn:li:share:1";
              url := "https://linkedin.com/feed/update/urn:li:share:1";
              pub_publishedAt := 1010 |}
           (after (publishToLinkedIn online two_targets linkedin_account)
              two_targets_world));
    reflexivity.
Defined.

Lemma linkedin_media_post_witness :
  exists profile uid registered slot bytes uploaded created,
    let r3 := register_request "tok-li" (data_id uid) in
    let r4 := upload_request "tok-li" slot bytes in
    let r5 :=
      ugcPost_request "tok-li" profile "hello" "IMAGE"
        [{| media_description := "Shared via Social Media Automation";
            media_urn := asset slot;
            media_title := "Social Media Post" |}] in
    readFileSync online "uploads/media/a.jpg" = Some bytes /\
    result (remote online 0 (profile_request "tok-li")) = Returned profile /\
    result (remote online 1 (userId_request "tok-li")) = Returned uid /\
    result (remote online 2 r3) = Returned registered /\
    data_value registered = Some slot /\
    result (remote online 3 r4) = Returned uploaded /\
    result (remote online 4 r5) = Returned created /\
    calls_made (publishToLinkedIn online with_pictures linkedin_account)
        two_targets_world
      = [{| call_request := profile_request "tok-li";
            call_reply := remote online 0 (profile_request "tok-li") |};
         {| call_request := userId_request "tok-li";
            call_reply := remote online 1 (userId_request "tok-li") |};
         {| call_request := r3; call_reply := remote online 2 r3 |};
         {| call_request := r4; call_reply := remote online 3 r4 |};
         {| call_request := r5; call_reply := remote online 4 r5 |}] /\
    {| platformPostId := Some "urn:li:share:1";
       url := "https://linkedin.com/feed/update/urn:li:share:1";
       pub_publishedAt := 1025 |}
    = {| platformPostId := data_id created;
         url := "https://linkedin.com/feed/update/" +:+ js_str (data_id created);
         pub_publishedAt :=
           now (after (publishToLinkedIn online with_pictures linkedin_account)
                  two_targets_world) |}.
Proof.
  apply (linkedin_media_post online with_pictures linkedin_account two_targets_world
           {| platformPostId := Some "urn:li:share:1";
              url := "https://linkedin.com/feed/update/urn:li:share:1";
              pub_publishedAt := 1025 |}
           (after (publishToLinkedIn online with_pictures linkedin_account)
              two_targets_world)
           "uploads/media/a.jpg" ["uploads/media/b.jpg"]);
    reflexivity.
Defined.

Lemma worker_calls_are_authorised_witness :
  exists post,
    posts two_targets_world !! "p1" = Some post /\
    status post <> PUBLISHED /\
    "LINKEDIN" ∈ platforms post /\
    authorised_by (include_socialAccounts two_targets_world post)
      {| call_request := profile_request "tok-li"; call_reply := ok_reply |}.
Proof.
  apply (worker_calls_are_authorised online job_p1 two_targets_world).
  vm_compute. left.
Defined.

(** * Properties of the routes *)

(** ** Creating a post *)

(** X11. Creating a post never throws.  It answers 400 exactly when the
    content is missing or empty or the platforms are missing, and then
    nothing at all has changed.  When the create cannot reach the
    database it answers 500 and neither the post rows nor the queue have
    changed.  When it answers 201, the row stored under the id the
    database generated is the one returned, owned by the caller, never
    published, SCHEDULED for the given time if there is one and DRAFT
    otherwise, and every other row is as before. *)
Theorem router_post_answers env user body w :
  exists r,
    completion (router_post env user body) w = Returned r /\
    (res_code r = 400%nat <->
       or_null (body_content body) = None \/ body_platforms body = None) /\
    (res_code r = 400%nat -> after (router_post env user body) w = w) /\
    (or_null (body_content body) <> None -> body_platforms body <> None ->
     db_available env (dbOps w) = false ->
       res_code r = 500%nat /\
       posts (after (router_post env user body) w) = posts w /\
       jobs (after (router_post env user body) w) = jobs w) /\
    (res_code r = 201%nat ->
       exists post,
         res_post r = Some (cuid env (dbOps w), post) /\
         posts (after (router_post env user body) w) !! cuid env (dbOps w)
           = Some post /\
         (forall id, id <> cuid env (dbOps w) ->
            posts (after (router_post env user body) w) !! id = posts w !! id) /\
         userId post = user /\ publishedAt post = None /\
         scheduledFor post = body_scheduledFor body /\
         status post = match body_scheduledFor body with
                       | Some _ => SCHEDULED
                       | None => DRAFT
                       end).
Proof.
  unfold completion, after, router_post, try_catch.
  destruct (or_null (body_content body)) as [text|] eqn:Htext.
  2: { eexists. split; [reflexivity|]. simpl.
       split_and!; [|done|by intros []|discriminate].
       split; [by left|done]. }
  destruct (body_platforms body) as [targets|] eqn:Htargets.
  2: { eexists. split; [reflexivity|]. simpl.
       split_and!; [|done|by intros _ []|discriminate].
       split; [by right|done]. }
  unfold bind, create.
  destruct (db_available env (dbOps w)).
  2: { eexists. split; [reflexivity|]. simpl.
       split_and!; [|discriminate|done|discriminate].
       split; [discriminate|]. by intros [?|?]. }
  destruct (body_scheduledFor body) as [t|] eqn:Ht; simpl.
  - unfold postQueue_add. simpl.
    destruct (jobs w !! ("post-" +:+ cuid env (dbOps w))); simpl;
      (eexists; split; [reflexivity|]; simpl; split_and!;
       [split; [discriminate|by intros [?|?]] | discriminate | discriminate
       | intros _; eexists; split; [reflexivity|]; split_and!; try done;
         [apply lookup_insert_eq | intros id Hne; by apply lookup_insert_ne]]).
  - eexists. split; [reflexivity|]. simpl. split_and!.
    + split; [discriminate|]. by intros [?|?].
    + discriminate.
    + discriminate.
    + intros _. eexists. split; [reflexivity|]. split_and!; try done.
      * apply lookup_insert_eq.
      * intros id Hne. by apply lookup_insert_ne.
Qed.

Lemma router_post_answers_witness :
  exists r,
    completion (router_post online "u1" unschedule) two_targets_world = Returned r /\
    res_code r = 400%nat /\
    after (router_post online "u1" unschedule) two_targets_world = two_targets_world.
Proof.
  destruct (router_post_answers online "u1" unschedule two_targets_world)
    as (r & Hr & Hiff & Hsame & _).
  exists r. split; [exact Hr|].
  assert (res_code r = 400%nat) as Hcode by (apply Hiff; left; reflexivity).
  split; [exact Hcode|]. exact (Hsame Hcode).
Defined.

(** X12. A post created without a schedule queues nothing.  A post created
    with a schedule [t] queues exactly one job, under the key 'post-<id>',
    carrying the post's id and the delay [t - now], which is negative
    when [t] is already past: the route does not clamp it. *)
Theorem router_post_queues_iff_scheduled env user body w r :
  completion (router_post env user body) w = Returned r ->
  res_code r = 201%nat ->
  match body_scheduledFor body with
  | None => jobs (after (router_post env user body) w) = jobs w
  | Some t =>
      jobs w !! ("post-" +:+ cuid env (dbOps w)) = None ->
      jobs (after (router_post env user body) w)
        = <["post-" +:+ cuid env (dbOps w) :=
              {| qj_name := "publish-post"; qj_postId := cuid env (dbOps w);
                 qj_delay := t - now w; qj_attemptsMade := 0 |}]> (jobs w)
  end.
Proof.
  unfold completion, after, router_post, try_catch.
  destruct (or_null (body_content body)) as [text|];
    [|intros H; injection H as <-; discriminate].
  destruct (body_platforms body) as [targets|];
    [|intros H; injection H as <-; discriminate].
  unfold bind, create.
  destruct (db_available env (dbOps w));
    [|intros H; injection H as <-; discriminate].
  destruct (body_scheduledFor body) as [t|]; simpl; [|done].
  intros _ _ Hfresh. unfold postQueue_add. simpl. by rewrite Hfresh.
Qed.

Lemma router_post_queues_iff_scheduled_witness :
  jobs (after (router_post online "u1" (schedule_at 500)) two_targets_world)
    = <["post-p2" := {| qj_name := "publish-post"; qj_postId := "p2";
                        qj_delay := -500; qj_attemptsMade := 0 |}]>
        (jobs two_targets_world).
Proof.
  exact (router_post_queues_iff_scheduled online "u1" (schedule_at 500)
           two_targets_world
           (json 201 "Post created successfully"
              (Some ("p2",
                     {| userId := "u1"; title := None; content := "hello";
                        mediaUrls := []; platforms := ["LINKEDIN"];
                        status := SCHEDULED; scheduledFor := Some 500;
                        publishedAt := None |})))
           eq_refl eq_refl eq_refl).
Defined.

(** ** Editing a post *)

(** X13. What an edit may write, whatever happens during it: no row other than
    the addressed one; not the addressed row when it belongs to another
    user or is PUBLISHED; and never a row's owner or its [publishedAt].
    No row is created or deleted. *)
Theorem router_put_writes_own_unpublished_row env user postId body w :
  (forall id, id <> postId ->
     posts (after (router_put env user postId body) w) !! id = posts w !! id) /\
  match posts w !! postId with
  | None => posts (after (router_put env user postId body) w) !! postId = None
  | Some p =>
      exists p',
        posts (after (router_put env user postId body) w) !! postId = Some p' /\
        userId p' = userId p /\ publishedAt p' = publishedAt p /\
        (userId p <> user \/ status p = PUBLISHED -> p' = p)
  end.
Proof.
  unfold after, router_put, try_catch, bind, findFirst.
  destruct (db_available env (dbOps w)); simpl.
  2: { split; [done|]. destruct (posts w !! postId) as [p|]; [|done]. by exists p. }
  destruct (posts w !! postId) as [p|] eqn:Hp; simpl; [|by rewrite Hp].
  case_decide as Howner; simpl.
  2: { rewrite Hp. split; [done|]. by exists p. }
  case_decide as Hst; simpl.
  { rewrite Hp. split; [done|]. by exists p. }
  unfold update. simpl.
  destruct (db_available env (S (dbOps w))); simpl.
  2: { rewrite Hp. split; [done|]. by exists p. }
  rewrite Hp. simpl.
  assert (forall m : gmap string ContentPost,
            m = <[postId :=
                {| userId := userId p;
                   title := match body_title body with
                            | Some t => Some t
                            | None => title p
                            end;
                   content := default (content p) (body_content body);
                   mediaUrls := match body_files body with
                                | [] => mediaUrls p
                                | _ :: _ => processMediaFiles env (body_files body)
                                end;
                   platforms := default (platforms p) (body_platforms body);
                   status := match body_scheduledFor body with
                             | Some _ => SCHEDULED
                             | None => if decide (status p = SCHEDULED)
                                       then DRAFT else status p
                             end;
                   scheduledFor := body_scheduledFor body;
                   publishedAt := publishedAt p |}]> (posts w) ->
            (forall id, id <> postId -> m !! id = posts w !! id) /\
            exists p', m !! postId = Some p' /\
                       userId p' = userId p /\ publishedAt p' = publishedAt p /\
                       (userId p <> user \/ status p = PUBLISHED -> p' = p))
    as Hdone.
  { intros m ->. split.
    - intros id Hne. by rewrite lookup_insert_ne.
    - rewrite lookup_insert_eq. eexists. split_and!; try done.
      intros [?|?]; done. }
  unfold postQueue_removeRepeatable.
  destruct (removeRepeatable_rejects env); simpl; [by apply Hdone|].
  destruct (body_scheduledFor body) as [t|]; simpl; [|by apply Hdone].
  unfold Date_now, new_Date, postQueue_add. simpl.
  destruct (jobs w !! ("post-" +:+ postId)); simpl; by apply Hdone.
Qed.

(** X14. What an edit may do to the queue, whatever happens during it: every
    job pending before is pending after, unchanged; the only key it can
    add is the post's own 'post-<id>'. *)
Theorem router_put_never_touches_pending_jobs env user postId body w :
  (forall key j, jobs w !! key = Some j ->
     jobs (after (router_put env user postId body) w) !! key = Some j) /\
  (forall key, key <> "post-" +:+ postId ->
     jobs (after (router_put env user postId body) w) !! key = jobs w !! key).
Proof.
  unfold after, router_put, try_catch, bind, findFirst.
  destruct (db_available env (dbOps w)); simpl; [|done].
  destruct (posts w !! postId) as [p|] eqn:Hp; simpl; [|done].
  case_decide; simpl; [|done].
  case_decide; simpl; [done|].
  unfold update. simpl.
  destruct (db_available env (S (dbOps w))); simpl; [|done].
  rewrite Hp. simpl. unfold postQueue_removeRepeatable.
  destruct (removeRepeatable_rejects env); simpl; [done|].
  destruct (body_scheduledFor body) as [t|]; simpl; [|done].
  unfold Date_now, new_Date, postQueue_add. simpl.
  destruct (jobs w !! ("post-" +:+ postId)) as [j0|] eqn:Hj; simpl; [done|].
  split.
  - intros key j Hkey. rewrite lookup_insert_ne; [done|]. intros <-. congruence.
  - intros key Hne. by rewrite lookup_insert_ne.
Qed.

(** ** Posts of other users *)

(** X15. A post that does not exist and a post that belongs to someone else
    are answered alike by the edit, delete and publish routes: 404 'Post
    not found', with nothing written and nothing queued. *)
Theorem foreign_post_is_not_found env user postId body autoId w :
  db_available env (dbOps w) = true ->
  (forall p, posts w !! postId = Some p -> userId p <> user) ->
  router_put env user postId body w
    = (Returned (json 404 "Post not found" None), tick_db w) /\
  router_delete env user postId w
    = (Returned (json 404 "Post not found" None), tick_db w) /\
  router_publish env user postId autoId w
    = (Returned (json 404 "Post not found" None), tick_db w).
Proof.
  intros Hdb Hforeign.
  assert (findFirst env postId user w = (Returned None, tick_db w)) as Hfind.
  { unfold findFirst. rewrite Hdb.
    destruct (posts w !! postId) as [p|] eqn:Hp; [|done].
    rewrite decide_False; [done|]. by apply Hforeign. }
  unfold router_put, router_delete, router_publish, try_catch, bind.
  by rewrite Hfind.
Qed.

Lemma foreign_post_is_not_found_witness :
  router_put online "u2" "p1" (schedule_at 9000) two_targets_world
    = (Returned (json 404 "Post not found" None), tick_db two_targets_world) /\
  router_delete online "u2" "p1" two_targets_world
    = (Returned (json 404 "Post not found" None), tick_db two_targets_world) /\
  router_publish online "u2" "p1" "17" two_targets_world
    = (Returned (json 404 "Post not found" None), tick_db two_targets_world).
Proof.
  apply (foreign_post_is_not_found online "u2" "p1" (schedule_at 9000) "17"
           two_targets_world); [reflexivity|].
  intros p Hp. vm_compute in Hp. injection Hp as <-. discriminate.
Defined.

(** ** Deleting a post *)

Lemma delete_row_inv env id w o w' :
  delete_row env id w = (o, w') ->
  jobs w' = jobs w /\
  (forall row, o = Returned row ->
     posts w' = delete id (posts w) /\ posts w !! id = Some row) /\
  (forall e, o = Threw e -> posts w' = posts w).
Proof.
  unfold delete_row. destruct (db_available env (dbOps w)).
  - destruct (posts w !! id) as [p|] eqn:Hp; intros H; injection H as <- <-;
      (split_and!; [done| |]); intros ? H; try discriminate H; try done.
    by injection H as <-.
  - intros H; injection H as <- <-.
    (split_and!; [done| |]); intros ? H; try discriminate H; done.
Qed.

(** X16. Deleting never throws and never removes a job from the queue.  It
    answers 200 only for a post of the caller, whose row is then gone,
    the other rows being untouched; with any other answer every row is
    as before. *)
Theorem router_delete_keeps_the_job env user postId w :
  exists r,
    completion (router_delete env user postId) w = Returned r /\
    jobs (after (router_delete env user postId) w) = jobs w /\
    (res_code r = 200%nat ->
       posts (after (router_delete env user postId) w) = delete postId (posts w) /\
       exists p, posts w !! postId = Some p /\ userId p = user) /\
    (res_code r <> 200%nat ->
       posts (after (router_delete env user postId) w) = posts w).
Proof.
  unfold completion, after, router_delete, try_catch, bind, findFirst.
  destruct (db_available env (dbOps w)); simpl.
  2: { eexists. split; [reflexivity|]. simpl. split_and!; [done|discriminate|done]. }
  destruct (posts w !! postId) as [p|] eqn:Hp; simpl.
  2: { eexists. split; [reflexivity|]. simpl. split_and!; [done|discriminate|done]. }
  case_decide as Howner; simpl.
  2: { eexists. split; [reflexivity|]. simpl. split_and!; [done|discriminate|done]. }
  assert (forall w0 : World,
            posts w0 = posts w -> jobs w0 = jobs w ->
            forall o w2, delete_row env postId w0 = (o, w2) ->
            exists r,
              (let (c0, w') :=
                 match o with
                 | Returned _ => ret (json 200 "Post deleted successfully" None) w2
                 | Threw e => (Threw e, w2)
                 end in
               match c0 with
               | Returned a => (Returned a, w')
               | Threw e => ret (json 500 "Failed to delete post" None) w'
               end) = (Returned r, w2) /\
              jobs w2 = jobs w /\
              (res_code r = 200%nat ->
                 posts w2 = delete postId (posts w) /\
                 exists p, posts w !! postId = Some p /\ userId p = user) /\
              (res_code r <> 200%nat -> posts w2 = posts w)) as Hdelete.
  { intros w0 Hposts Hjobs o w2 Hdel.
    apply delete_row_inv in Hdel as (Hj & Hret & Hthrow).
    destruct o as [row|e]; simpl.
    - destruct (Hret row eq_refl) as [Hgone _].
      eexists. split; [reflexivity|]. simpl. split_and!; [congruence| |done].
      intros _. split; [congruence|]. by exists p.
    - eexists. split; [reflexivity|]. simpl. split_and!; [congruence|discriminate|].
      intros _. rewrite (Hthrow e eq_refl). done. }
  case_decide as Hst; simpl.
  - unfold postQueue_removeRepeatable.
    destruct (removeRepeatable_rejects env); simpl.
    + eexists. split; [reflexivity|]. simpl. split_and!; [done|discriminate|done].
    + match goal with
      | |- context [delete_row env postId ?W] =>
          destruct (delete_row env postId W) as [o w2] eqn:Hdel;
          destruct (Hdelete W eq_refl eq_refl o w2 Hdel) as (r & Hr & ?)
      end.
      exists r. rewrite Hr. simpl.
      destruct H as (Hj & H200 & Hother). split_and!; [done|done| |done].
      intros Hc. destruct (H200 Hc) as [Hgone _]. split; [done|]. by exists p.
  - match goal with
    | |- context [delete_row env postId ?W] =>
        destruct (delete_row env postId W) as [o w2] eqn:Hdel;
        destruct (Hdelete W eq_refl eq_refl o w2 Hdel) as (r & Hr & ?)
    end.
    exists r. rewrite Hr. simpl.
      destruct H as (Hj & H200 & Hother). split_and!; [done|done| |done].
      intros Hc. destruct (H200 Hc) as [Hgone _]. split; [done|]. by exists p.
Qed.

Lemma router_delete_done env user postId w p :
  posts w !! postId = Some p ->
  userId p = user ->
  db_available env (dbOps w) = true ->
  db_available env (S (dbOps w)) = true ->
  (status p = SCHEDULED -> removeRepeatable_rejects env = false) ->
  exists w1,
    router_delete env user postId w
      = (Returned (json 200 "Post deleted successfully" None), w1) /\
    posts w1 = delete postId (posts w) /\ jobs w1 = jobs w /\
    dbOps w1 = S (S (dbOps w)).
Proof.
  intros Hp Howner Hdb1 Hdb2 Hrej.
  unfold router_delete, try_catch, bind, findFirst.
  rewrite Hdb1, Hp. rewrite decide_True by done.
  case_decide as Hst; simpl.
  - unfold postQueue_removeRepeatable. rewrite (Hrej Hst). simpl.
    unfold delete_row. simpl. rewrite Hdb2, Hp. by eexists.
  - unfold delete_row. simpl. rewrite Hdb2, Hp. by eexists.
Qed.

(** X17. A deleted post leaves its job behind.  After the owner deletes a post
    that has a pending job, the job is still in the queue, and when it is
    delivered the worker finds no post and throws 'Post <id> not found',
    so the queue sees a failed job. *)
Theorem deleted_post_leaves_a_failing_job env user job w p j :
  posts w !! data_postId job = Some p ->
  userId p = user ->
  (status p = SCHEDULED -> removeRepeatable_rejects env = false) ->
  jobs w !! ("post-" +:+ data_postId job) = Some j ->
  db_available env (dbOps w) = true ->
  db_available env (S (dbOps w)) = true ->
  db_available env (S (S (dbOps w))) = true ->
  jobs (after (router_delete env user (data_postId job)) w)
    !! ("post-" +:+ data_postId job) = Some j /\
  posts (after (router_delete env user (data_postId job)) w) !! data_postId job = None /\
  completion (postWorker env job) (after (router_delete env user (data_postId job)) w)
    = Threw (new_Error ("Post " +:+ data_postId job +:+ " not found")).
Proof.
  intros Hp Howner Hrej Hj Hdb1 Hdb2 Hdb3.
  destruct (router_delete_done env user (data_postId job) w p Hp Howner Hdb1 Hdb2 Hrej)
    as (w1 & Hrun & Hposts & Hjobs & Hops).
  unfold after at 1 2 3. rewrite Hrun. simpl.
  assert (posts w1 !! data_postId job = None) as Hgone
    by (rewrite Hposts; apply lookup_delete_eq).
  split_and!; [congruence|done|].
  unfold completion. rewrite postWorker_post_missing; [done| |done].
  by rewrite Hops.
Qed.

Lemma deleted_post_leaves_a_failing_job_witness :
  jobs (after (router_delete online "u1" "p2") rescheduled_world) !! "post-p2"
    = Some {| qj_name := "publish-post"; qj_postId := "p2";
              qj_delay := 4000; qj_attemptsMade := 0 |} /\
  posts (after (router_delete online "u1" "p2") rescheduled_world) !! "p2" = None /\
  completion (postWorker online job_p2)
      (after (router_delete online "u1" "p2") rescheduled_world)
    = Threw (new_Error "Post p2 not found").
Proof.
  apply (deleted_post_leaves_a_failing_job online "u1" job_p2 rescheduled_world
           {| userId := "u1"; title := None; content := "hello"; mediaUrls := [];
              platforms := ["LINKEDIN"]; status := SCHEDULED;
              scheduledFor := Some 9000; publishedAt := None |}
           {| qj_name := "publish-post"; qj_postId := "p2";
              qj_delay := 4000; qj_attemptsMade := 0 |});
    reflexivity.
Defined.

(** ** Publishing now *)

(** X18. Publishing a post of the caller that is not yet published queues a
    job under an id of the queue's own, whatever is already queued for
    the post: a job pending under 'post-<id>' stays, so the post then has
    two.  The job is queued before the row is written: if that write
    reaches the database the post is SCHEDULED for the current time and
    the answer is 200; if it does not, the answer is 500, the row is as
    before, and the job is queued all the same. *)
Theorem router_publish_queues_another_job env user postId autoId w p :
  posts w !! postId = Some p ->
  userId p = user ->
  status p <> PUBLISHED ->
  db_available env (dbOps w) = true ->
  jobs w !! autoId = None ->
  jobs (after (router_publish env user postId autoId) w)
    = <[autoId := {| qj_name := "publish-post"; qj_postId := postId;
                     qj_delay := 0; qj_attemptsMade := 0 |}]> (jobs w) /\
  (forall key j, jobs w !! key = Some j ->
     jobs (after (router_publish env user postId autoId) w) !! key = Some j) /\
  (db_available env (S (dbOps w)) = true ->
     completion (router_publish env user postId autoId) w
       = Returned (json 200 "Post queued for publishing" None) /\
     status_of (after (router_publish env user postId autoId) w) postId
       = Some SCHEDULED /\
     scheduledFor <$> posts (after (router_publish env user postId autoId) w) !! postId
       = Some (Some (now w))) /\
  (db_available env (S (dbOps w)) = false ->
     completion (router_publish env user postId autoId) w
       = Returned (json 500 "Failed to publish post" None) /\
     posts (after (router_publish env user postId autoId) w) = posts w).
Proof.
  intros Hp Howner Hst Hdb Hfresh.
  unfold completion, after, status_of, router_publish, try_catch, bind, findFirst.
  rewrite Hdb, Hp. rewrite decide_True by done. rewrite decide_False by done.
  unfold postQueue_add. simpl. rewrite Hfresh. simpl.
  unfold update. simpl. rewrite Hp.
  assert (forall key j, jobs w !! key = Some j ->
            <[autoId := {| qj_name := "publish-post"; qj_postId := postId;
                           qj_delay := 0; qj_attemptsMade := 0 |}]> (jobs w) !! key
              = Some j) as Hkept.
  { intros key j Hkey. rewrite lookup_insert_ne; [done|]. intros <-. congruence. }
  destruct (db_available env (S (dbOps w))); simpl.
  - split_and!; [done|done| |discriminate].
    intros _. rewrite lookup_insert_eq. done.
  - split_and!; [done|done|discriminate|done].
Qed.

Lemma router_publish_queues_another_job_witness :
  jobs (after (router_publish online "u1" "p2" "17") rescheduled_world)
    = <["17" := {| qj_name := "publish-post"; qj_postId := "p2";
                   qj_delay := 0; qj_attemptsMade := 0 |}]> (jobs rescheduled_world) /\
  jobs (after (router_publish online "u1" "p2" "17") rescheduled_world) !! "post-p2"
    = Some {| qj_name := "publish-post"; qj_postId := "p2";
              qj_delay := 4000; qj_attemptsMade := 0 |} /\
  completion (router_publish online "u1" "p2" "17") rescheduled_world
    = Returned (json 200 "Post queued for publishing" None).
Proof.
  destruct (router_publish_queues_another_job online "u1" "p2" "17" rescheduled_world
              {| userId := "u1"; title := None; content := "hello"; mediaUrls := [];
                 platforms := ["LINKEDIN"]; status := SCHEDULED;
                 scheduledFor := Some 9000; publishedAt := None |})
    as (Hjobs & Hkept & Hok & _);
    [reflexivity | reflexivity | discriminate | reflexivity | reflexivity |].
  split_and!.
  - exact Hjobs.
  - apply Hkept. reflexivity.
  - apply Hok. reflexivity.
Defined.

(** ** Taking a post off the schedule *)

(** X19. Editing a scheduled post without a schedule turns it back into a
    DRAFT but leaves its job in the queue; and the worker, which only
    skips PUBLISHED posts, processes the draft when that job is
    delivered: the post ends PUBLISHED or FAILED, not DRAFT. *)
Theorem unscheduled_post_is_still_processed env user job body w p j :
  posts w !! data_postId job = Some p ->
  userId p = user ->
  status p = SCHEDULED ->
  body_scheduledFor body = None ->
  jobs w !! ("post-" +:+ data_postId job) = Some j ->
  db_available env (dbOps w) = true ->
  db_available env (S (dbOps w)) = true ->
  db_available env (S (S (dbOps w))) = true ->
  db_available env (S (S (S (dbOps w)))) = true ->
  status_of (after (router_put env user (data_postId job) body) w) (data_postId job)
    = Some DRAFT /\
  jobs (after (router_put env user (data_postId job) body) w)
    !! ("post-" +:+ data_postId job) = Some j /\
  (status_of (after (postWorker env job)
                (after (router_put env user (data_postId job) body) w))
     (data_postId job) = Some PUBLISHED \/
   status_of (after (postWorker env job)
                (after (router_put env user (data_postId job) body) w))
     (data_postId job) = Some FAILED).
Proof.
  intros Hp Howner Hst Hbody Hj Hdb0 Hdb1 Hdb2 Hdb3.
  assert (exists w1 p1,
            after (router_put env user (data_postId job) body) w = w1 /\
            posts w1 !! data_postId job = Some p1 /\ status p1 = DRAFT /\
            jobs w1 = jobs w /\ dbOps w1 = S (S (dbOps w)))
    as (w1 & p1 & -> & Hp1 & Hst1 & Hjobs1 & Hops1).
  { unfold after, router_put, try_catch, bind, findFirst.
    rewrite Hdb0, Hp. rewrite decide_True by done.
    rewrite decide_False by (rewrite Hst; discriminate).
    unfold update. simpl. rewrite Hdb1, Hp. simpl.
    unfold postQueue_removeRepeatable. rewrite Hbody.
    destruct (removeRepeatable_rejects env); simpl;
      (eexists _, _; split; [reflexivity|]; simpl;
       rewrite lookup_insert_eq; split_and!; [reflexivity| |done|done]);
      simpl; by rewrite decide_True. }
  split_and!.
  - unfold status_of. by rewrite Hp1, <- Hst1.
  - by rewrite Hjobs1.
  - destruct (loop_run_total env p1 (include_socialAccounts w1 p1) (platforms p1)
                (tick_db w1)) as (rs & w2 & Hrun).
    assert (status p1 <> PUBLISHED) as Hne by (rewrite Hst1; discriminate).
    assert (db_available env (dbOps w1) = true) as Hload by (by rewrite Hops1).
    assert (db_available env (S (dbOps w1)) = true) as Hpersist by (by rewrite Hops1).
    unfold after, status_of.
    rewrite (postWorker_persisted env job w1 p1 Hload Hp1 rs w2 Hne Hrun Hpersist).
    simpl. rewrite lookup_insert_eq. simpl.
    destruct (forallb is_error rs); [by right|by left].
Qed.

Lemma unscheduled_post_is_still_processed_witness :
  status_of (after (router_put online "u1" "p2" unschedule) rescheduled_world) "p2"
    = Some DRAFT /\
  jobs (after (router_put online "u1" "p2" unschedule) rescheduled_world) !! "post-p2"
    = Some {| qj_name := "publish-post"; qj_postId := "p2";
              qj_delay := 4000; qj_attemptsMade := 0 |} /\
  (status_of (after (postWorker online job_p2)
                (after (router_put online "u1" "p2" unschedule) rescheduled_world))
     "p2" = Some PUBLISHED \/
   status_of (after (postWorker online job_p2)
                (after (router_put online "u1" "p2" unschedule) rescheduled_world))
     "p2" = Some FAILED).
Proof.
  apply (unscheduled_post_is_still_processed online "u1" job_p2 unschedule
           rescheduled_world
           {| userId := "u1"; title := None; content := "hello"; mediaUrls := [];
              platforms := ["LINKEDIN"]; status := SCHEDULED;
              scheduledFor := Some 9000; publishedAt := None |}
           {| qj_name := "publish-post"; qj_postId := "p2";
              qj_delay := 4000; qj_attemptsMade := 0 |});
    reflexivity.
Defined.

(** * A failed job and its retry *)

(** X20. A run that throws, and so is retried by the queue, never leaves the
    post PUBLISHED if it was not before, whatever happened on the network
    during the run: the guard that skips published posts will not stop
    the retry. *)
Theorem failed_job_is_not_marked_published env job w e w' :
  postWorker env job w = (Threw e, w') ->
  status_of w (data_postId job) <> Some PUBLISHED ->
  status_of w' (data_postId job) <> Some PUBLISHED.
Proof.
  intros Heq Hbefore. pose proof (postWorker_run env job w) as Hrun.
  unfold completion, after in Hrun. rewrite Heq in Hrun. simpl in Hrun.
  unfold status_of in *.
  assert (forall w0, posts w0 = posts w ->
            status <$> posts (mark_failed env (data_postId job) w0) !! data_postId job
              <> Some PUBLISHED) as Hmark.
  { intros w0 Hw0.
    destruct (mark_failed_frame env (data_postId job) w0)
      as (_ & _ & _ & _ & _ & [Hsame|(p & Hp & Hsame)]); rewrite Hsame.
    - by rewrite Hw0.
    - simpl. discriminate. }
  inversion Hrun; subst; try (by apply Hmark).
  apply Hmark. simpl.
  match goal with
  | H : loop_run _ _ _ _ _ _ _ |- _ => apply loop_run_net in H; by destruct H
  end.
Qed.

Lemma failed_job_is_not_marked_published_witness :
  status_of (after (postWorker db_blip job_p1) two_targets_world) "p1"
    <> Some PUBLISHED.
Proof.
  apply (failed_job_is_not_marked_published db_blip job_p1 two_targets_world
           PrismaClientInitializationError
           (after (postWorker db_blip job_p1) two_targets_world)).
  - reflexivity.
  - vm_compute. discriminate.
Defined.

(** The run of the witness and its retry: the database fails at the final
    update after LinkedIn accepted the post; the retry finds the post
    FAILED, not PUBLISHED, and posts it to LinkedIn a second time. *)
Example retry_posts_twice :
  completion (postWorker db_blip job_p1) two_targets_world
    = Threw PrismaClientInitializationError /\
  status_of (after (postWorker db_blip job_p1) two_targets_world) "p1" = Some FAILED /\
  req_body <$> (call_request <$>
    calls (after (postWorker db_blip job_p1)
             (after (postWorker db_blip job_p1) two_targets_world)))
    = [NoBody; UgcPost "urn:li:person:urn:li:share:1" "hello" "NONE" [];
       NoBody; UgcPost "urn:li:person:urn:li:share:1" "hello" "NONE" []].
Proof. split_and!; reflexivity. Qed.

(** * The authentication middleware *)

Lemma js_split_no_space s : no_space s = true -> js_split Ascii.Space s = [s].
Proof.
  induction s as [|c s IH]; simpl; [done|].
  intros H. apply andb_prop in H as [Hc Hs].
  apply negb_true_iff in Hc. rewrite Hc. by rewrite (IH Hs).
Qed.

Lemma js_split_word s t :
  no_space s = true ->
  js_split Ascii.Space (s +:+ String Ascii.Space t) = s :: js_split Ascii.Space t.
Proof.
  induction s as [|c s IH]; simpl; [done|].
  intros H. apply andb_prop in H as [Hc Hs].
  apply negb_true_iff in Hc. rewrite Hc. by rewrite (IH Hs).
Qed.

(** X21. The middleware looks at the second space-separated word of the
    Authorization header and at nothing else.  A missing header, and a
    header without a space (a bare token), are refused with 401 before
    any verification.  With a second word, that word alone is verified,
    whatever the first word: the scheme need not be 'Bearer'. *)
Theorem authenticateToken_reads_second_word jwt_verify :
  authenticateToken jwt_verify None = inl (json 401 "Access token required" None) /\
  (forall header,
     no_space header = true ->
     authenticateToken jwt_verify (Some header)
       = inl (json 401 "Access token required" None)) /\
  (forall scheme token,
     no_space scheme = true -> no_space token = true -> token <> "" ->
     authenticateToken jwt_verify (Some (scheme +:+ " " +:+ token))
       = match jwt_verify token with
         | Some user => inr user
         | None => inl (json 403 "Invalid or expired token" None)
         end).
Proof.
  split_and!.
  - reflexivity.
  - intros header Hns. unfold authenticateToken.
    case_decide; [done|]. by rewrite js_split_no_space.
  - intros scheme token Hs Ht Hne. unfold authenticateToken.
    rewrite decide_False by (by destruct scheme).
    change (" " +:+ token) with (String Ascii.Space token).
    rewrite js_split_word by done. rewrite js_split_no_space by done. simpl.
    by rewrite decide_False.
Qed.

Lemma authenticateToken_reads_second_word_witness :
  authenticateToken (fun token => if decide (token = "abc") then Some "u1" else None)
    (Some "abc") = inl (json 401 "Access token required" None) /\
  authenticateToken (fun token => if decide (token = "abc") then Some "u1" else None)
    (Some "Basic abc") = inr "u1".
Proof.
  destruct (authenticateToken_reads_second_word
              (fun token => if decide (token = "abc") then Some "u1" else None))
    as (_ & Hbare & Hword).
  split.
  - apply Hbare. reflexivity.
  - apply (Hword "Basic" "abc"); [reflexivity | reflexivity | discriminate].
Defined.

(** * Scheduling a post that has no job yet *)

(** X22. Editing a post of the caller that is not published and has no pending
    job, with a schedule [t], does queue its job (when the queue's
    [removeRepeatable] returns): the answer is 200, the row is SCHEDULED
    for [t], and the job 'post-<id>' is pending with the delay [t - now]. *)
Theorem router_put_schedules_an_unqueued_post env user postId body w p t :
  posts w !! postId = Some p ->
  userId p = user ->
  status p <> PUBLISHED ->
  body_scheduledFor body = Some t ->
  jobs w !! ("post-" +:+ postId) = None ->
  removeRepeatable_rejects env = false ->
  db_available env (dbOps w) = true ->
  db_available env (S (dbOps w)) = true ->
  exists r,
    completion (router_put env user postId body) w = Returned r /\
    res_code r = 200%nat /\
    status_of (after (router_put env user postId body) w) postId = Some SCHEDULED /\
    scheduledFor <$> posts (after (router_put env user postId body) w) !! postId
      = Some (Some t) /\
    jobs (after (router_put env user postId body) w)
      = <["post-" +:+ postId :=
            {| qj_name := "publish-post"; qj_postId := postId;
               qj_delay := t - now w; qj_attemptsMade := 0 |}]> (jobs w).
Proof.
  intros Hp Howner Hst Hbody Hfresh Hrej Hdb0 Hdb1.
  unfold completion, after, status_of, router_put, try_catch, bind, findFirst.
  rewrite Hdb0, Hp. rewrite decide_True by done. rewrite decide_False by done.
  unfold update. simpl. rewrite Hdb1, Hp. simpl.
  unfold postQueue_removeRepeatable. rewrite Hrej, Hbody. simpl.
  unfold Date_now, new_Date, postQueue_add. simpl. rewrite Hfresh. simpl.
  eexists. split; [reflexivity|]. simpl. rewrite lookup_insert_eq. by split_and!.
Qed.

Lemma router_put_schedules_an_unqueued_post_witness :
  exists r,
    completion (router_put online "u1" "p1" (schedule_at 9000)) two_targets_world
      = Returned r /\
    res_code r = 200%nat /\
    status_of (after (router_put online "u1" "p1" (schedule_at 9000)) two_targets_world)
      "p1" = Some SCHEDULED /\
    scheduledFor <$> posts (after (router_put online "u1" "p1" (schedule_at 9000))
                              two_targets_world) !! "p1"
      = Some (Some 9000) /\
    jobs (after (router_put online "u1" "p1" (schedule_at 9000)) two_targets_world)
      = <["post-p1" := {| qj_name := "publish-post"; qj_postId := "p1";
                          qj_delay := 8000; qj_attemptsMade := 0 |}]>
          (jobs two_targets_world).
Proof.
  apply (router_put_schedules_an_unqueued_post online "u1" "p1" (schedule_at 9000)
           two_targets_world two_targets 9000);
    first [reflexivity | discriminate].
Defined.
